(** * faas-cli: [template store list]

    A shallow embedding of [commands/template_store_list.go] and of the parts
    of the Go standard library the command relies on ([unicode/utf8],
    [text/tabwriter], [encoding/json]), followed by the properties of the
    command that the specification states.

    Conventions:
    - a Go [string] is a [string]; a Go [[]byte] is a [list ascii]
      (an [ascii] is exactly one byte);
    - a Go [int] or [rune] is a [Z];
    - a Go [error] is [option string]: [None] is [nil] and [Some m] is an
      error whose [Error()] text is [m] (every error the command creates
      comes from [fmt.Errorf]);
    - code that mutates an object through a pointer ([*tabwriter.Writer])
      is written in state-passing style. *)

From Stdlib Require Import String Ascii List ZArith Lia Bool Arith.
From Stdlib Require Import DecimalString.
Import ListNotations.

Local Open Scope string_scope.
Local Open Scope list_scope.
Local Open Scope Z_scope.

(* ================================================================= *)
(** ** Bytes and strings *)

Definition bytes := list ascii.

(** The numeric value of a byte. *)
Definition b2z (c : ascii) : Z := Z.of_N (N_of_ascii c).

(** Conversion [byte(x)] of an integer: the low eight bits. *)
Definition z2b (x : Z) : ascii := ascii_of_N (Z.to_N (x mod 256)).

(** Control characters, which a Rocq string literal cannot spell. *)
Definition TAB : ascii := "009"%char.
Definition LF : ascii := "010"%char.
Definition VT : ascii := "011"%char.
Definition FF : ascii := "012"%char.
Definition CR : ascii := "013"%char.
Definition BS : ascii := "008"%char.
Definition QUOTE : ascii := "034"%char.

Definition tab : string := String TAB "".
Definition newline : string := String LF "".

(** [[]byte(s)] and [string(b)]. *)
Definition bytes_of_string : string -> bytes := list_ascii_of_string.
Definition string_of_bytes : bytes -> string := string_of_list_ascii.

(** [%d] of the [fmt] package. *)
Definition fmt_d (n : Z) : string := NilZero.string_of_int (Z.to_int n).

(* ================================================================= *)
(** ** [unicode/utf8] *)

Module utf8.

Definition RuneError : Z := 0xFFFD.
Definition RuneSelf : Z := 0x80.
Definition MaxRune : Z := 0x10FFFF.
Definition UTFMax : nat := 4.

Definition surrogateMin : Z := 0xD800.
Definition surrogateMax : Z := 0xDFFF.

Definition t1 : Z := 0x00.
Definition tx : Z := 0x80.
Definition t2 : Z := 0xC0.
Definition t3 : Z := 0xE0.
Definition t4 : Z := 0xF0.
Definition t5 : Z := 0xF8.

Definition maskx : Z := 0x3F.
Definition mask2 : Z := 0x1F.
Definition mask3 : Z := 0x0F.
Definition mask4 : Z := 0x07.

Definition rune1Max : Z := 0x7F.
Definition rune2Max : Z := 0x7FF.
Definition rune3Max : Z := 0xFFFF.

Definition locb : Z := 0x80.
Definition hicb : Z := 0xBF.

(** Entries of the [first] table. *)
Definition xx : Z := 0xF1.
Definition as_ : Z := 0xF0.
Definition s1 : Z := 0x02.
Definition s2 : Z := 0x13.
Definition s3 : Z := 0x03.
Definition s4 : Z := 0x23.
Definition s5 : Z := 0x34.
Definition s6 : Z := 0x04.
Definition s7 : Z := 0x44.

(** The table [first], indexed by the value of the first byte. *)
Definition first (c : Z) : Z :=
  if c <? 0x80 then as_
  else if c <? 0xC2 then xx
  else if c <? 0xE0 then s1
  else if c =? 0xE0 then s2
  else if c <? 0xED then s3
  else if c =? 0xED then s4
  else if c <? 0xF0 then s3
  else if c =? 0xF0 then s5
  else if c <? 0xF4 then s6
  else if c =? 0xF4 then s7
  else xx.

(** The table [acceptRanges]: bounds on the second byte. *)
Definition acceptRanges (i : Z) : Z * Z :=
  if i =? 1 then (0xA0, hicb)
  else if i =? 2 then (locb, 0x9F)
  else if i =? 3 then (0x90, hicb)
  else if i =? 4 then (locb, 0x8F)
  else (locb, hicb).

Definition at_ (p : bytes) (i : nat) : Z := b2z (nth i p zero).

(** [DecodeRune]: the first rune of [p] and its width in bytes. *)
Definition DecodeRune (p : bytes) : Z * nat :=
  match p with
  | [] => (RuneError, 0%nat)
  | c0 :: _ =>
    let p0 := b2z c0 in
    let x := first p0 in
    if x >=? as_ then
      (if x =? xx then RuneError else p0, 1%nat)
    else
      let sz := Z.to_nat (Z.land x 7) in
      let accept := acceptRanges (Z.shiftr x 4) in
      if (length p <? sz)%nat then (RuneError, 1%nat)
      else
        let b1 := at_ p 1 in
        if (b1 <? fst accept) || (snd accept <? b1) then (RuneError, 1%nat)
        else if (sz <=? 2)%nat then
          (Z.lor (Z.shiftl (Z.land p0 mask2) 6) (Z.land b1 maskx), 2%nat)
        else
          let b2 := at_ p 2 in
          if (b2 <? locb) || (hicb <? b2) then (RuneError, 1%nat)
          else if (sz <=? 3)%nat then
            (Z.lor (Z.lor (Z.shiftl (Z.land p0 mask3) 12)
                          (Z.shiftl (Z.land b1 maskx) 6))
                   (Z.land b2 maskx), 3%nat)
          else
            let b3 := at_ p 3 in
            if (b3 <? locb) || (hicb <? b3) then (RuneError, 1%nat)
            else
              (Z.lor (Z.lor (Z.lor (Z.shiftl (Z.land p0 mask4) 18)
                                   (Z.shiftl (Z.land b1 maskx) 12))
                            (Z.shiftl (Z.land b2 maskx) 6))
                     (Z.land b3 maskx), 4%nat)
  end.

(** [EncodeRune] (the bytes it stores; their number is the length).
    The argument is a [rune] seen as [uint32]; the runes the decoder
    produces are never negative. *)
Definition EncodeRune (r : Z) : bytes :=
  let i := r mod 2 ^ 32 in
  if i <=? rune1Max then [z2b r]
  else if i <=? rune2Max then
    [z2b (Z.lor t2 (Z.shiftr r 6)); z2b (Z.lor tx (Z.land r maskx))]
  else
    let enc3 (r : Z) :=
      [z2b (Z.lor t3 (Z.shiftr r 12));
       z2b (Z.lor tx (Z.land (Z.shiftr r 6) maskx));
       z2b (Z.lor tx (Z.land r maskx))] in
    if (MaxRune <? i) || ((surrogateMin <=? i) && (i <=? surrogateMax))
    then enc3 RuneError
    else if i <=? rune3Max then enc3 r
    else
      [z2b (Z.lor t4 (Z.shiftr r 18));
       z2b (Z.lor tx (Z.land (Z.shiftr r 12) maskx));
       z2b (Z.lor tx (Z.land (Z.shiftr r 6) maskx));
       z2b (Z.lor tx (Z.land r maskx))].

(** One iteration of the loop of [RuneCount]: by how much [i] advances
    when [p[i:]] is [p] (non-empty). *)
Definition runeCountStep (p : bytes) : nat :=
  let c := at_ p 0 in
  if c <? RuneSelf then 1%nat
  else
    let x := first c in
    if x =? xx then 1%nat
    else
      let size := Z.to_nat (Z.land x 7) in
      if (length p <? size)%nat then 1%nat
      else
        let accept := acceptRanges (Z.shiftr x 4) in
        let c1 := at_ p 1 in
        if (c1 <? fst accept) || (snd accept <? c1) then 1%nat
        else if (size =? 2)%nat then size
        else
          let c2 := at_ p 2 in
          if (c2 <? locb) || (hicb <? c2) then 1%nat
          else if (size =? 3)%nat then size
          else
            let c3 := at_ p 3 in
            if (c3 <? locb) || (hicb <? c3) then 1%nat
            else size.

Fixpoint RuneCount_loop (fuel : nat) (p : bytes) (n : Z) : Z :=
  match fuel, p with
  | S fuel', _ :: _ => RuneCount_loop fuel' (skipn (runeCountStep p) p) (n + 1)
  | _, _ => n
  end.

(** [RuneCount]: the number of runes in [p]; every erroneous byte counts
    as one rune.  Each iteration consumes at least one byte, so
    [length p] iterations always reach the end. *)
Definition RuneCount (p : bytes) : Z := RuneCount_loop (length p) p 0.

(** One iteration of the loop of [Valid]: the number of bytes of the rune
    at the head of [p] (non-empty), or [None] when the loop returns
    [false]. *)
Definition validStep (p : bytes) : option nat :=
  let pi := at_ p 0 in
  if pi <? RuneSelf then Some 1%nat
  else
    let x := first pi in
    if x =? xx then None
    else
      let size := Z.to_nat (Z.land x 7) in
      if (length p <? size)%nat then None
      else
        let accept := acceptRanges (Z.shiftr x 4) in
        let c1 := at_ p 1 in
        if (c1 <? fst accept) || (snd accept <? c1) then None
        else if (size =? 2)%nat then Some size
        else
          let c2 := at_ p 2 in
          if (c2 <? locb) || (hicb <? c2) then None
          else if (size =? 3)%nat then Some size
          else
            let c3 := at_ p 3 in
            if (c3 <? locb) || (hicb <? c3) then None
            else Some size.

Fixpoint Valid_loop (fuel : nat) (p : bytes) : bool :=
  match p with
  | [] => true
  | _ :: _ =>
    match fuel with
    | O => false
    | S fuel' =>
      match validStep p with
      | Some size => Valid_loop fuel' (skipn size p)
      | None => false
      end
    end
  end.

(** [Valid]: whether [p] consists entirely of valid UTF-8-encoded runes.
    Each iteration consumes at least one byte. *)
Definition Valid (p : bytes) : bool := Valid_loop (length p) p.

(** [ValidString]. *)
Definition ValidString (s : string) : bool := Valid (bytes_of_string s).

End utf8.

(* ================================================================= *)
(** ** [text/tabwriter]

    The writer as the command configures it: [flags = 0] (cells are
    left-aligned, no HTML filtering, escape characters are kept, empty
    columns are kept, no debugging bars) and a padding character that is
    not a tab.  The Go writer keeps the text of all cells in one buffer
    [b.buf] and the cells as sizes into it; here a cell carries its own
    text.  [b.lines] is split in the finished lines ([lines]) and the line
    under construction ([line]).  The text of [b.buf] after [b.pos], which
    [updateWidth] has not measured yet, is [pending]. *)

Module tabwriter.

Record cell := {
  text : bytes;   (* b.buf[pos : pos+size] *)
  width : Z;      (* cell width in runes *)
  htab : bool     (* true if the cell is terminated by an htab *)
}.

Definition size (c : cell) : nat := length (text c).

Record Writer := {
  minwidth : Z;
  tabwidth : Z;
  padding : Z;
  padchar : ascii;
  flags : Z;
  pending : bytes;
  cell_ : cell;                 (* b.cell, the current incomplete cell *)
  endChar : option ascii;       (* None is the Go value 0 *)
  lines : list (list cell);
  line : list cell;
  output : bytes                (* what the underlying io.Writer received *)
}.

Definition Escape : ascii := "255"%char.

Definition emptyCell : cell := {| text := []; width := 0; htab := false |}.

(** [NewWriter(output, minwidth, tabwidth, padding, padchar, flags)] on an
    empty buffer. *)
Definition NewWriter (minwidth tabwidth padding : Z) (padchar : ascii)
           (flags : Z) : Writer :=
  {| minwidth := minwidth; tabwidth := tabwidth; padding := padding;
     padchar := padchar; flags := flags;
     pending := []; cell_ := emptyCell; endChar := None;
     lines := []; line := []; output := [] |}.

Definition set_cell (b : Writer) (c : cell) (p : bytes) : Writer :=
  {| minwidth := minwidth b; tabwidth := tabwidth b; padding := padding b;
     padchar := padchar b; flags := flags b;
     pending := p; cell_ := c; endChar := endChar b;
     lines := lines b; line := line b; output := output b |}.

Definition set_endChar (b : Writer) (e : option ascii) : Writer :=
  {| minwidth := minwidth b; tabwidth := tabwidth b; padding := padding b;
     padchar := padchar b; flags := flags b;
     pending := pending b; cell_ := cell_ b; endChar := e;
     lines := lines b; line := line b; output := output b |}.

Definition set_lines (b : Writer) (ls : list (list cell)) (l : list cell)
  : Writer :=
  {| minwidth := minwidth b; tabwidth := tabwidth b; padding := padding b;
     padchar := padchar b; flags := flags b;
     pending := pending b; cell_ := cell_ b; endChar := endChar b;
     lines := ls; line := l; output := output b |}.

(** [reset], with the output already produced kept. *)
Definition reset (b : Writer) (out : bytes) : Writer :=
  {| minwidth := minwidth b; tabwidth := tabwidth b; padding := padding b;
     padchar := padchar b; flags := flags b;
     pending := []; cell_ := emptyCell; endChar := None;
     lines := []; line := []; output := out |}.

(** [append]: add text to the current cell. *)
Definition append (b : Writer) (ch : ascii) : Writer :=
  set_cell b
    {| text := text (cell_ b) ++ [ch]; width := width (cell_ b);
       htab := htab (cell_ b) |}
    (pending b ++ [ch]).

(** [updateWidth]: measure the text added since the last measure. *)
Definition updateWidth (b : Writer) : Writer :=
  set_cell b
    {| text := text (cell_ b);
       width := width (cell_ b) + utf8.RuneCount (pending b);
       htab := htab (cell_ b) |}
    [].

(** [terminateCell]: the current cell joins the current line; the result
    is the number of cells of that line. *)
Definition terminateCell (b : Writer) (htab_ : bool) : nat * Writer :=
  let c := {| text := text (cell_ b); width := width (cell_ b);
              htab := htab_ |} in
  let l := line b ++ [c] in
  (length l, set_lines (set_cell b emptyCell (pending b)) (lines b) l).

(** [addLine]: the current line is finished and a new one begins. *)
Definition addLine (b : Writer) : Writer :=
  set_lines b (lines b ++ [line b]) [].

Definition startEscape (b : Writer) (ch : ascii) : Writer :=
  set_endChar b (Some ch).

(** [endEscape] for the escape character [Escape] when [StripEscape] is
    not set: the two escape characters do not count. *)
Definition endEscape (b : Writer) : Writer :=
  let b := updateWidth b in
  set_endChar
    (set_cell b
       {| text := text (cell_ b); width := width (cell_ b) - 2;
          htab := htab (cell_ b) |}
       (pending b))
    None.

(** [writePadding] with a padding character that is not a tab:
    [cellw - textw] copies of it. *)
Definition writePadding (b : Writer) (textw cellw : Z) : bytes :=
  repeat (padchar b) (Z.to_nat (cellw - textw)).

(** The inner loop of [writeLines]: the cells of one line, the cell of
    index [j] padded to [widths[j]] when there is such a width. *)
Fixpoint writeCells (b : Writer) (widths : list Z) (l : list cell) : bytes :=
  match l with
  | [] => []
  | c :: rest =>
    text c
    ++ match widths with
       | w :: _ => writePadding b (width c) w
       | [] => []
       end
    ++ writeCells b (tl widths) rest
  end.

(** The test [column >= len(line)-1] of [format]. *)
Definition lacksColumn (column : nat) (l : list cell) : bool :=
  Z.of_nat column >=? Z.of_nat (length l) - 1.

(** The width of a column block: the loop "column block begin" of
    [format], over the lines of the block. *)
Definition blockWidth (b : Writer) (column : nat) (block : list (list cell))
  : Z :=
  fold_left
    (fun width_ l =>
       match nth_error l column with
       | Some c =>
         let w := width c + padding b in
         if w >? width_ then w else width_
       | None => width_
       end)
    block (minwidth b).

(** The loop of [format] over the lines [line0 .. line1): lines without a
    cell in [column] are written with the widths known so far; a maximal
    run of lines with a cell in [column] is a column block, which
    [formatBlock] formats with one more width.  [block] collects the
    current run.  The result is the text of each line, in order. *)
Fixpoint formatLoop (b : Writer) (formatBlock : list (list cell) -> list bytes)
         (widths : list Z) (block : list (list cell))
         (ls : list (list cell)) : list bytes :=
  let flush_ (blk : list (list cell)) :=
    match blk with
    | [] => []
    | _ :: _ => formatBlock blk
    end in
  match ls with
  | [] => flush_ block
  | l :: rest =>
    if lacksColumn (length widths) l
    then flush_ block ++ writeCells b widths l
                      :: formatLoop b formatBlock widths [] rest
    else formatLoop b formatBlock widths (block ++ [l]) rest
  end.

(** [format].  The Go function recurses once per column; [fuel] bounds
    the number of columns. *)
Fixpoint format (fuel : nat) (b : Writer) (widths : list Z)
         (ls : list (list cell)) : list bytes :=
  match fuel with
  | O => map (writeCells b widths) ls
  | S fuel' =>
    formatLoop b
      (fun blk =>
         format fuel' b (widths ++ [blockWidth b (length widths) blk]) blk)
      widths [] ls
  end.

Definition maxCells (ls : list (list cell)) : nat :=
  fold_right (fun l m => Nat.max (length l) m) 0%nat ls.

(** [writeLines] ends every line but the last buffered one with a
    newline. *)
Fixpoint joinLines (rendered : list bytes) : bytes :=
  match rendered with
  | [] => []
  | [l] => l
  | l :: rest => l ++ LF :: joinLines rest
  end.

(** [flushNoDefers]: [b.format(0, 0, len(b.lines))] and [b.reset()]. *)
Definition flushNoDefers (b : Writer) : Writer :=
  let b :=
    if (0 <? size (cell_ b))%nat then
      let b := match endChar b with
               | Some _ => endEscape b
               | None => b
               end in
      snd (terminateCell b false)
    else b in
  let all := lines b ++ [line b] in
  reset b (output b ++ joinLines (format (S (maxCells all)) b [] all)).

Definition Flush : Writer -> Writer := flushNoDefers.

(** The body of the loop of [Write], for one byte.  Go appends the text
    between two special bytes in one piece; here every byte is appended
    as it is read, which yields the same cells. *)
Definition writeByte (b : Writer) (ch : ascii) : Writer :=
  match endChar b with
  | None =>
    if Ascii.eqb ch TAB || Ascii.eqb ch VT || Ascii.eqb ch LF
       || Ascii.eqb ch FF
    then
      let b := updateWidth b in
      let (ncells, b) := terminateCell b (Ascii.eqb ch TAB) in
      if Ascii.eqb ch LF || Ascii.eqb ch FF then
        let b := addLine b in
        if Ascii.eqb ch FF || (ncells =? 1)%nat
        then flushNoDefers b
        else b
      else b
    else if Ascii.eqb ch Escape then
      startEscape (append (updateWidth b) ch) Escape
    else append b ch
  | Some e =>
    if Ascii.eqb ch e
    then endEscape (append b ch)
    else append b ch
  end.

Definition Write (b : Writer) (buf : bytes) : Writer :=
  fold_left writeByte buf b.

End tabwriter.

(* ================================================================= *)
(** ** [fmt] on a tabwriter *)

(** [fmt.Fprintln(w)] with no operand writes a newline. *)
Definition Fprintln (w : tabwriter.Writer) : tabwriter.Writer :=
  tabwriter.Write w (bytes_of_string newline).

(** [fmt.Fprintf(w, format, args...)] writes the formatted string in one
    call of [Write]. *)
Definition Fprintf (w : tabwriter.Writer) (formatted : string)
  : tabwriter.Writer :=
  tabwriter.Write w (bytes_of_string formatted).

(* ================================================================= *)
(** ** [unicode/utf16] *)

Module utf16.

Definition surr1 : Z := 0xD800.
Definition surr2 : Z := 0xDC00.
Definition surr3 : Z := 0xE000.
Definition surrSelf : Z := 0x10000.
Definition replacementChar : Z := 0xFFFD.

Definition IsSurrogate (r : Z) : bool := (surr1 <=? r) && (r <? surr3).

Definition DecodeRune (r1 r2 : Z) : Z :=
  if (surr1 <=? r1) && (r1 <? surr2) && (surr2 <=? r2) && (r2 <? surr3)
  then Z.lor (Z.shiftl (r1 - surr1) 10) (r2 - surr2) + surrSelf
  else replacementChar.

End utf16.

(* ================================================================= *)
(** ** [encoding/json]: the decoder

    [Unmarshal] first checks that the whole input is one well-formed JSON
    value ([checkValid], a state machine over the bytes) and only then
    walks it again to store it.  Here the check is a recursive-descent
    parser for the same language that returns the value as a tree; string
    literals and object keys are kept as the bytes between their quotes,
    which the storing phase unquotes as the Go decoder does.  The parser
    has no bound on nesting. *)

Module json.

#[local] Set Warnings "-register-all".

Inductive Value :=
| Null
| Bool (b : bool)
| Number (lit : bytes)
| String_ (lit : bytes)
| Array (elems : list Value)
| Object (members : list (bytes * Value)).

(** The errors of [Unmarshal] that can arise for a target of type
    [*[]TemplateInfo]. *)
Inductive Error :=
| SyntaxError (data : bytes)
| UnmarshalTypeError (Value_ Type_ Struct Field : string).

Definition isSpace (c : ascii) : bool :=
  Ascii.eqb c " " || Ascii.eqb c TAB || Ascii.eqb c CR || Ascii.eqb c LF.

Fixpoint skipSpace (s : bytes) : bytes :=
  match s with
  | c :: rest => if isSpace c then skipSpace rest else s
  | [] => []
  end.

Definition isDigit (c : ascii) : bool :=
  (b2z "0" <=? b2z c) && (b2z c <=? b2z "9").

Definition isHex (c : ascii) : bool :=
  isDigit c
  || ((b2z "a" <=? b2z c) && (b2z c <=? b2z "f"))
  || ((b2z "A" <=? b2z c) && (b2z c <=? b2z "F")).

(** The states [stateInString], [stateInStringEsc] and
    [stateInStringEscU..]: from just after the opening quote, the bytes
    of the literal up to the closing quote, and what follows it. *)
Fixpoint scanString (s : bytes) : option (bytes * bytes) :=
  match s with
  | [] => None
  | c :: rest =>
    if Ascii.eqb c QUOTE then Some ([], rest)
    else if Ascii.eqb c "\" then
      match rest with
      | [] => None
      | e :: rest1 =>
        if Ascii.eqb e "b" || Ascii.eqb e "f" || Ascii.eqb e "n"
           || Ascii.eqb e "r" || Ascii.eqb e "t" || Ascii.eqb e "\"
           || Ascii.eqb e "/" || Ascii.eqb e QUOTE
        then
          match scanString rest1 with
          | Some (lit, after) => Some (c :: e :: lit, after)
          | None => None
          end
        else if Ascii.eqb e "u" then
          match rest1 with
          | h1 :: h2 :: h3 :: h4 :: rest2 =>
            if isHex h1 && isHex h2 && isHex h3 && isHex h4 then
              match scanString rest2 with
              | Some (lit, after) =>
                Some (c :: e :: h1 :: h2 :: h3 :: h4 :: lit, after)
              | None => None
              end
            else None
          | _ => None
          end
        else None
      end
    else if b2z c <? 0x20 then None
    else
      match scanString rest with
      | Some (lit, after) => Some (c :: lit, after)
      | None => None
      end
  end.

(** A maximal run of digits. *)
Fixpoint scanDigits (s : bytes) : bytes * bytes :=
  match s with
  | c :: rest =>
    if isDigit c
    then let (ds, after) := scanDigits rest in (c :: ds, after)
    else ([], s)
  | [] => ([], [])
  end.

(** [stateE], [stateESign], [stateE0]: an optional exponent. *)
Definition scanExponent (s : bytes) : option (bytes * bytes) :=
  match s with
  | e :: rest =>
    if Ascii.eqb e "e" || Ascii.eqb e "E" then
      let (sign, rest1) :=
        match rest with
        | c :: rest1 =>
          if Ascii.eqb c "+" || Ascii.eqb c "-" then ([c], rest1)
          else ([], rest)
        | [] => ([], rest)
        end in
      match scanDigits rest1 with
      | ([], _) => None
      | (ds, after) => Some (e :: sign ++ ds, after)
      end
    else Some ([], s)
  | [] => Some ([], s)
  end.

(** [stateDot], [stateDot0]: an optional fraction, then the exponent. *)
Definition scanFraction (s : bytes) : option (bytes * bytes) :=
  match s with
  | d :: rest =>
    if Ascii.eqb d "." then
      match scanDigits rest with
      | ([], _) => None
      | (ds, after) =>
        match scanExponent after with
        | Some (ex, after1) => Some (d :: ds ++ ex, after1)
        | None => None
        end
      end
    else scanExponent s
  | [] => Some ([], s)
  end.

(** [state0], [state1]: the integer part, from its first digit. *)
Definition scanInt (s : bytes) : option (bytes * bytes) :=
  match s with
  | c :: rest =>
    if Ascii.eqb c "0" then
      match scanFraction rest with
      | Some (fr, after) => Some (c :: fr, after)
      | None => None
      end
    else if isDigit c then
      let (ds, rest1) := scanDigits rest in
      match scanFraction rest1 with
      | Some (fr, after) => Some (c :: ds ++ fr, after)
      | None => None
      end
    else None
  | [] => None
  end.

(** A number, from its first byte ([stateNeg] after a minus sign). *)
Definition scanNumber (s : bytes) : option (bytes * bytes) :=
  match s with
  | c :: rest =>
    if Ascii.eqb c "-" then
      match scanInt rest with
      | Some (lit, after) => Some (c :: lit, after)
      | None => None
      end
    else scanInt s
  | [] => None
  end.

(** [s] without the prefix [lit], if it starts with it. *)
Fixpoint stripPrefix (lit s : bytes) : option bytes :=
  match lit, s with
  | [], _ => Some s
  | a :: lit', c :: s' => if Ascii.eqb a c then stripPrefix lit' s' else None
  | _ :: _, [] => None
  end.

(** [stateBeginValue] and what follows: one value at the head of [s]
    (after optional space) and the rest of the input.  [parseElements]
    and [parseMembers] read the rest of an array after an element and
    the rest of an object after a member ([stateEndValue]). *)
Fixpoint parseValue (fuel : nat) (s : bytes) : option (Value * bytes) :=
  match fuel with
  | O => None
  | S fuel' =>
    match skipSpace s with
    | [] => None
    | c :: rest =>
      if Ascii.eqb c "{" then
        match skipSpace rest with
        | c1 :: rest1 =>
          if Ascii.eqb c1 "}" then Some (Object [], rest1)
          else
            match parseMembers fuel' (c1 :: rest1) with
            | Some (ms, after) => Some (Object ms, after)
            | None => None
            end
        | [] => None
        end
      else if Ascii.eqb c "[" then
        match skipSpace rest with
        | c1 :: rest1 =>
          if Ascii.eqb c1 "]" then Some (Array [], rest1)
          else
            match parseElements fuel' (c1 :: rest1) with
            | Some (vs, after) => Some (Array vs, after)
            | None => None
            end
        | [] => None
        end
      else if Ascii.eqb c QUOTE then
        match scanString rest with
        | Some (lit, after) => Some (String_ lit, after)
        | None => None
        end
      else if Ascii.eqb c "t" then
        match stripPrefix (bytes_of_string "rue") rest with
        | Some after => Some (Bool true, after)
        | None => None
        end
      else if Ascii.eqb c "f" then
        match stripPrefix (bytes_of_string "alse") rest with
        | Some after => Some (Bool false, after)
        | None => None
        end
      else if Ascii.eqb c "n" then
        match stripPrefix (bytes_of_string "ull") rest with
        | Some after => Some (Null, after)
        | None => None
        end
      else
        match scanNumber (c :: rest) with
        | Some (lit, after) => Some (Number lit, after)
        | None => None
        end
    end
  end

with parseElements (fuel : nat) (s : bytes) : option (list Value * bytes) :=
  match fuel with
  | O => None
  | S fuel' =>
    match parseValue fuel' s with
    | Some (v, after) =>
      match skipSpace after with
      | c :: rest =>
        if Ascii.eqb c "]" then Some ([v], rest)
        else if Ascii.eqb c "," then
          match parseElements fuel' rest with
          | Some (vs, after1) => Some (v :: vs, after1)
          | None => None
          end
        else None
      | [] => None
      end
    | None => None
    end
  end

with parseMembers (fuel : nat) (s : bytes)
     : option (list (bytes * Value) * bytes) :=
  match fuel with
  | O => None
  | S fuel' =>
    match skipSpace s with
    | q :: rest =>
      if Ascii.eqb q QUOTE then
        match scanString rest with
        | Some (key, after) =>
          match skipSpace after with
          | colon :: rest1 =>
            if Ascii.eqb colon ":" then
              match parseValue fuel' rest1 with
              | Some (v, after1) =>
                match skipSpace after1 with
                | c :: rest2 =>
                  if Ascii.eqb c "}" then Some ([(key, v)], rest2)
                  else if Ascii.eqb c "," then
                    match parseMembers fuel' rest2 with
                    | Some (ms, after2) => Some ((key, v) :: ms, after2)
                    | None => None
                    end
                  else None
                | [] => None
                end
              | None => None
              end
            else None
          | [] => None
          end
        | None => None
        end
      else None
    | [] => None
    end
  end.

(** [checkValid]: the input is one value, with nothing but space after
    it.  Two nested calls never read the same byte twice in a row without
    consuming one, so [2 * length data + 2] levels are enough for any
    input. *)
Definition parse (data : bytes) : option Value :=
  match parseValue (2 * length data + 2) data with
  | Some (v, after) =>
    match skipSpace after with
    | [] => Some v
    | _ :: _ => None
    end
  | None => None
  end.

(** The value of a hexadecimal digit, [-1] for another byte. *)
Definition hexval (c : ascii) : Z :=
  if isDigit c then b2z c - b2z "0"
  else if (b2z "a" <=? b2z c) && (b2z c <=? b2z "f") then b2z c - b2z "a" + 10
  else if (b2z "A" <=? b2z c) && (b2z c <=? b2z "F") then b2z c - b2z "A" + 10
  else -1.

(** [getu4]: the rune of a [\uXXXX] at the head of [s], or [-1]. *)
Definition getu4 (s : bytes) : Z :=
  match s with
  | bs :: u :: h1 :: h2 :: h3 :: h4 :: _ =>
    if Ascii.eqb bs "\" && Ascii.eqb u "u"
       && isHex h1 && isHex h2 && isHex h3 && isHex h4
    then ((hexval h1 * 16 + hexval h2) * 16 + hexval h3) * 16 + hexval h4
    else -1
  | _ => -1
  end.

(** The main loop of [unquoteBytes] on the text between the quotes of a
    literal ([None] is [ok = false]).  The Go function first returns
    the text unchanged when it holds no escape and is well-formed
    UTF-8; that shortcut yields what this loop yields. *)
Fixpoint unquote_loop (fuel : nat) (s : bytes) : option bytes :=
  match fuel with
  | O => match s with [] => Some [] | _ :: _ => None end
  | S fuel' =>
    match s with
    | [] => Some []
    | c :: rest =>
      if Ascii.eqb c "\" then
        match rest with
        | [] => None
        | e :: rest1 =>
          let simple (b : ascii) :=
            match unquote_loop fuel' rest1 with
            | Some t => Some (b :: t)
            | None => None
            end in
          if Ascii.eqb e QUOTE || Ascii.eqb e "\" || Ascii.eqb e "/"
             || Ascii.eqb e "'"
          then simple e
          else if Ascii.eqb e "b" then simple BS
          else if Ascii.eqb e "f" then simple FF
          else if Ascii.eqb e "n" then simple LF
          else if Ascii.eqb e "r" then simple CR
          else if Ascii.eqb e "t" then simple TAB
          else if Ascii.eqb e "u" then
            let rr := getu4 s in
            if rr <? 0 then None
            else
              let s1 := skipn 6 s in
              let (rr', s2) :=
                if utf16.IsSurrogate rr then
                  let dec := utf16.DecodeRune rr (getu4 s1) in
                  if negb (dec =? utf16.replacementChar)
                  then (dec, skipn 6 s1)
                  else (utf16.replacementChar, s1)
                else (rr, s1) in
              match unquote_loop fuel' s2 with
              | Some t => Some (utf8.EncodeRune rr' ++ t)
              | None => None
              end
          else None
        end
      else if Ascii.eqb c QUOTE || (b2z c <? b2z " ") then None
      else if b2z c <? utf8.RuneSelf then
        match unquote_loop fuel' rest with
        | Some t => Some (c :: t)
        | None => None
        end
      else
        let (rr, size) := utf8.DecodeRune s in
        match unquote_loop fuel' (skipn size s) with
        | Some t => Some (utf8.EncodeRune rr ++ t)
        | None => None
        end
    end
  end.

Definition unquote (lit : bytes) : option bytes :=
  unquote_loop (length lit) lit.

Definition caseMask : Z := 0xDF.
Definition kelvin : Z := 0x212A.
Definition smallLongEss : Z := 0x17F.

(** [equalFoldRight]: case-insensitive comparison of the ASCII field
    name [s] with the key [t], which may hold the Kelvin sign for a [k]
    and the long s for an [s].  For an ASCII name this is the
    comparison every version of the decoder makes, whichever of its
    folding functions it picks. *)
Fixpoint equalFold (fuel : nat) (s t : bytes) : bool :=
  match s with
  | [] => match t with [] => true | _ :: _ => false end
  | sb :: s' =>
    match fuel, t with
    | _, [] => false
    | O, _ => false
    | S fuel', tb :: t' =>
      if b2z tb <? utf8.RuneSelf then
        if Ascii.eqb sb tb then equalFold fuel' s' t'
        else
          let sbUpper := Z.land (b2z sb) caseMask in
          if (b2z "A" <=? sbUpper) && (sbUpper <=? b2z "Z") then
            if sbUpper =? Z.land (b2z tb) caseMask
            then equalFold fuel' s' t'
            else false
          else false
      else
        let (tr, size) := utf8.DecodeRune t in
        if ((Ascii.eqb sb "s" || Ascii.eqb sb "S") && (tr =? smallLongEss))
           || ((Ascii.eqb sb "k" || Ascii.eqb sb "K") && (tr =? kelvin))
        then equalFold fuel' s' (skipn size t)
        else false
    end
  end.

End json.

(* ================================================================= *)
(** ** [commands/template_store_list.go]: data, platform check, formatter *)

Definition error := option string.

(** [fmt.Errorf]: an error with the formatted text. *)
Definition Errorf (formatted : string) : error := Some formatted.

Definition DefaultTemplatesStore : string :=
  "https://raw.githubusercontent.com/openfaas/store/master/templates.json".

Definition allPlatforms : string := "allPlatforms".

Definition availablePlatforms : list string := ["armhf"; "x86_64"; "arm64"].

(** [TemplateInfo] is the definition of a template which is part of the
    store. *)
Record TemplateInfo := {
  TemplateName : string;   (* json:"template" *)
  Platform : string;       (* json:"platform" *)
  Language : string;       (* json:"language" *)
  Source : string;         (* json:"source" *)
  Description : string;    (* json:"description" *)
  Repository : string;     (* json:"repo" *)
  Official : string        (* json:"official" *)
}.

(** The loop of [checkExistingPlatforms] from index [lastPlatform] on, over
    the remaining elements [rest] of [availablePlatforms]; [err] is the
    variable of that name. *)
Fixpoint checkExistingPlatforms_loop (platform : string) (lastPlatform : Z)
         (rest : list string) (err : error) : error :=
  match rest with
  | [] => err
  | availablePlatform :: rest' =>
    if String.eqb availablePlatform platform then err (* break *)
    else if Z.of_nat (length availablePlatforms) - 1 =? lastPlatform then
      checkExistingPlatforms_loop platform (lastPlatform + 1) rest'
        (Errorf (newline
                 ++ "Currently supported platforms are: armhf, arm64 and x86_64. Unable to find: "
                 ++ platform ++ newline ++ newline))
    else checkExistingPlatforms_loop platform (lastPlatform + 1) rest' err
  end.

Definition checkExistingPlatforms (platform : string) : error :=
  checkExistingPlatforms_loop platform 0 availablePlatforms None.

(** The text of one row, as [fmt] formats it. *)
Definition basicRow (template : TemplateInfo) : string :=
  TemplateName template ++ tab ++ Source template ++ tab
  ++ Description template ++ newline.

Definition verboseRow (template : TemplateInfo) : string :=
  TemplateName template ++ tab ++ Language template ++ tab
  ++ Platform template ++ tab ++ Source template ++ tab
  ++ Description template ++ newline.

Definition basicHeader : string :=
  "NAME" ++ tab ++ "SOURCE" ++ tab ++ "DESCRIPTION" ++ newline.

Definition verboseHeader : string :=
  "NAME" ++ tab ++ "LANGUAGE" ++ tab ++ "PLATFORM" ++ tab ++ "SOURCE" ++ tab
  ++ "DESCRIPTION" ++ newline.

Definition formatBasicOutput (lineWriter : tabwriter.Writer)
           (templates : list TemplateInfo) (platform : string)
  : tabwriter.Writer :=
  if negb (String.eqb platform allPlatforms) then
    let lineWriter := Fprintf lineWriter basicHeader in
    fold_left
      (fun lineWriter template =>
         if String.eqb (Platform template) platform
         then Fprintf lineWriter (basicRow template)
         else lineWriter)
      templates lineWriter
  else
    let lineWriter := Fprintf lineWriter basicHeader in
    fold_left
      (fun lineWriter template => Fprintf lineWriter (basicRow template))
      templates lineWriter.

Definition formatVerboseOutput (lineWriter : tabwriter.Writer)
           (templates : list TemplateInfo) (platform : string)
  : tabwriter.Writer :=
  if negb (String.eqb platform allPlatforms) then
    let lineWriter := Fprintf lineWriter verboseHeader in
    fold_left
      (fun lineWriter template =>
         if String.eqb (Platform template) platform
         then Fprintf lineWriter (verboseRow template)
         else lineWriter)
      templates lineWriter
  else
    let lineWriter := Fprintf lineWriter verboseHeader in
    fold_left
      (fun lineWriter template => Fprintf lineWriter (verboseRow template))
      templates lineWriter.

Definition formatTemplatesOutput (templates : list TemplateInfo)
           (verbose : bool) (platform : string) : string :=
  match (if negb (String.eqb platform allPlatforms)
         then checkExistingPlatforms platform
         else None) with
  | Some err => err
  | None =>
    let lineWriter := tabwriter.NewWriter 0 0 1 " "%char 0 in
    let lineWriter := Fprintln lineWriter in
    let lineWriter :=
      if verbose
      then formatVerboseOutput lineWriter templates platform
      else formatBasicOutput lineWriter templates platform in
    let lineWriter := Fprintln lineWriter in
    let lineWriter := tabwriter.Flush lineWriter in
    string_of_bytes (tabwriter.output lineWriter)
  end.


(* ================================================================= *)
(** ** [json.Unmarshal(body, &templatesInfo)]

    The storing phase of the decoder, which Go drives by reflection, at
    the one target type the command uses: a pointer to a
    [[]TemplateInfo].  The decoder keeps the first type error it meets
    ([saveError]) and goes on; [Unmarshal] returns that error at the
    end. *)

Definition zeroTemplateInfo : TemplateInfo :=
  {| TemplateName := ""; Platform := ""; Language := ""; Source := "";
     Description := ""; Repository := ""; Official := "" |}.

(** The fields of [TemplateInfo] in declaration order: JSON name, getter
    and setter. *)
Record field := {
  name : string;
  get : TemplateInfo -> string;
  set : TemplateInfo -> string -> TemplateInfo
}.

Definition templateField : field :=
  {| name := "template"; get := TemplateName;
     set := fun v s =>
       {| TemplateName := s; Platform := Platform v;
          Language := Language v; Source := Source v;
          Description := Description v; Repository := Repository v;
          Official := Official v |} |}.

Definition platformField : field :=
  {| name := "platform"; get := Platform;
     set := fun v s =>
       {| TemplateName := TemplateName v; Platform := s;
          Language := Language v; Source := Source v;
          Description := Description v; Repository := Repository v;
          Official := Official v |} |}.

Definition languageField : field :=
  {| name := "language"; get := Language;
     set := fun v s =>
       {| TemplateName := TemplateName v; Platform := Platform v;
          Language := s; Source := Source v;
          Description := Description v; Repository := Repository v;
          Official := Official v |} |}.

Definition sourceField : field :=
  {| name := "source"; get := Source;
     set := fun v s =>
       {| TemplateName := TemplateName v; Platform := Platform v;
          Language := Language v; Source := s;
          Description := Description v; Repository := Repository v;
          Official := Official v |} |}.

Definition descriptionField : field :=
  {| name := "description"; get := Description;
     set := fun v s =>
       {| TemplateName := TemplateName v; Platform := Platform v;
          Language := Language v; Source := Source v;
          Description := s; Repository := Repository v;
          Official := Official v |} |}.

Definition repoField : field :=
  {| name := "repo"; get := Repository;
     set := fun v s =>
       {| TemplateName := TemplateName v; Platform := Platform v;
          Language := Language v; Source := Source v;
          Description := Description v; Repository := s;
          Official := Official v |} |}.

Definition officialField : field :=
  {| name := "official"; get := Official;
     set := fun v s =>
       {| TemplateName := TemplateName v; Platform := Platform v;
          Language := Language v; Source := Source v;
          Description := Description v; Repository := Repository v;
          Official := s |} |}.

Definition fields : list field :=
  [templateField; platformField; languageField; sourceField;
   descriptionField; repoField; officialField].

(** [saveError]: only the first error is kept. *)
Definition saveError (saved : option json.Error) (err : json.Error)
  : option json.Error :=
  match saved with
  | Some _ => saved
  | None => Some err
  end.

(** The name under which the decoder reports the kind of a value. *)
Definition valueKind (v : json.Value) : string :=
  match v with
  | json.Null => "null"
  | json.Bool _ => "bool"
  | json.Number _ => "number"
  | json.String_ _ => "string"
  | json.Array _ => "array"
  | json.Object _ => "object"
  end.

(** The key matches the field: by its exact name, or else by the
    case-insensitive comparison. *)
Definition keyIs (key : bytes) (f : field) : bool :=
  String.eqb (name f) (string_of_bytes key).

Definition keyFolds (key : bytes) (f : field) : bool :=
  json.equalFold (length key) (bytes_of_string (name f)) key.

(** The field a key of an object selects: an exact match first, then the
    first field that matches without regard to case. *)
Definition findField (key : bytes) : option field :=
  match find (keyIs key) fields with
  | Some f => Some f
  | None => find (keyFolds key) fields
  end.

(** A value stored in a field of type [string]: a string literal sets the
    field, [null] leaves it, and anything else is a type error. *)
Definition storeString (f : field) (item : json.Value) (v : TemplateInfo)
           (saved : option json.Error) : TemplateInfo * option json.Error :=
  match item with
  | json.String_ lit =>
    match json.unquote lit with
    | Some s => (set f v (string_of_bytes s), saved)
    | None => (v, saved) (* excluded by the syntax check *)
    end
  | json.Null => (v, saved)
  | _ =>
    (v, saveError saved
          (json.UnmarshalTypeError (valueKind item) "string"
                                   "TemplateInfo" (name f)))
  end.

(** The key of a member of an object, unquoted as [d.object] does. *)
Definition unquoted (rawkey : bytes) : bytes :=
  match json.unquote rawkey with
  | Some k => k
  | None => [] (* excluded by the syntax check *)
  end.

(** [d.object] on a struct of type [TemplateInfo]: every member whose key
    selects a field is stored in it, the other members are skipped. *)
Fixpoint object (members : list (bytes * json.Value)) (v : TemplateInfo)
         (saved : option json.Error) : TemplateInfo * option json.Error :=
  match members with
  | [] => (v, saved)
  | (rawkey, item) :: rest =>
    match findField (unquoted rawkey) with
    | Some f =>
      let (v, saved) := storeString f item v saved in
      object rest v saved
    | None => object rest v saved
    end
  end.

(** [d.value] on an element of the slice, which starts as the zero
    [TemplateInfo]. *)
Definition element (item : json.Value) (saved : option json.Error)
  : TemplateInfo * option json.Error :=
  match item with
  | json.Object members => object members zeroTemplateInfo saved
  | json.Null => (zeroTemplateInfo, saved)
  | _ =>
    (zeroTemplateInfo,
     saveError saved
       (json.UnmarshalTypeError (valueKind item) "commands.TemplateInfo"
                                "" ""))
  end.

(** [d.array] on the slice: one element of the slice per element of the
    array. *)
Fixpoint array (elems : list json.Value) (saved : option json.Error)
  : list TemplateInfo * option json.Error :=
  match elems with
  | [] => ([], saved)
  | item :: rest =>
    let (v, saved) := element item saved in
    let (vs, saved) := array rest saved in
    (v :: vs, saved)
  end.

(** [json.Unmarshal(data, &templatesInfo)]: the new value of
    [templatesInfo] and the error.  A nil slice and an empty slice are
    both the empty list. *)
Definition Unmarshal (data : bytes) (templatesInfo : list TemplateInfo)
  : list TemplateInfo * option json.Error :=
  match json.parse data with
  | None => (templatesInfo, Some (json.SyntaxError data))
  | Some (json.Array elems) => array elems None
  | Some json.Null => ([], None)
  | Some item =>
    (templatesInfo,
     Some (json.UnmarshalTypeError (valueKind item) "[]commands.TemplateInfo"
                                   "" ""))
  end.

(* ================================================================= *)
(** ** The outside world of the command *)

(** The body of a response: what [ioutil.ReadAll] returns for it. *)
Record ReadCloser := {
  ReadAll : bytes * error
}.

(** [http.Response]: [Body = None] is a nil body. *)
Record Response := {
  StatusCode : Z;
  Body : option ReadCloser
}.

Definition StatusOK : Z := 200.

(** What the program observes of its environment: the environment
    variables, whether a URL makes a request ([reqErr] of
    [http.NewRequest]), and what the default client answers within the
    deadline of five seconds: a response, or the text of [clientErr]. *)
Record World := {
  Getenv : string -> string;
  NewRequest : string -> error;
  Do : string -> Response + string
}.

(** The package-level variables the flags of the command are bound to. *)
Record Flags := {
  templateStoreURL : string;
  platform : string;
  verbose : bool
}.

(** The constant [templateStoreURLEnvironment] is declared in another file
    of the package; the help text of the command names the variable. *)
Definition templateStoreURLEnvironment : string := "OPENFAAS_TEMPLATE_STORE_URL".

(** Modelled from the spec: [getTemplateStoreURL] is defined in another
    file of the package.  Given an explicit override value, an environment
    value and a compiled-in default, it returns the override if non-empty,
    else the environment value if non-empty, else the default. *)
Definition getTemplateStoreURL (argumentURL environmentURL defaultURL : string)
  : string :=
  if negb (String.eqb argumentURL "") then argumentURL
  else if negb (String.eqb environmentURL "") then environmentURL
  else defaultURL.

Section Command.

(** The text [Error()] gives for an error of the JSON decoder. *)
Variable jsonError : json.Error -> string.

Definition getTemplateInfo (w : World) (g : Flags) (repository : string)
  : list TemplateInfo * error :=
  match NewRequest w repository with
  | Some reqErr =>
    ([], Errorf ("error while trying to create request to take template info: "
                 ++ reqErr))
  | None =>
    match Do w repository with
    | inr clientErr =>
      ([], Errorf ("error while requesting template list: " ++ clientErr))
    | inl res =>
      match Body res with
      | None =>
        ([], Errorf ("error empty response body from: "
                     ++ templateStoreURL g))
      | Some resBody =>
        if negb (StatusCode res =? StatusOK) then
          ([], Errorf ("unexpected status code wanted: " ++ fmt_d StatusOK
                       ++ " got: " ++ fmt_d (StatusCode res)))
        else
          match ReadAll resBody with
          | (_, Some bodyErr) =>
            ([], Errorf ("error while reading data from templates body: "
                         ++ bodyErr))
          | (body, None) =>
            match Unmarshal body [] with
            | (_, Some unmarshallErr) =>
              ([], Errorf ("error while unmarshalling into templates struct: "
                           ++ jsonError unmarshallErr))
            | (templatesInfo, None) => (templatesInfo, None)
            end
          end
      end
    end
  end.

(** [runTemplateStoreList]: the error the command returns and the writes
    it made to its output stream, in order. *)
Definition runTemplateStoreList (w : World) (g : Flags)
  : error * list string :=
  let envTemplateRepoStore := Getenv w templateStoreURLEnvironment in
  let storeURL :=
    getTemplateStoreURL (templateStoreURL g) envTemplateRepoStore
                        DefaultTemplatesStore in
  match getTemplateInfo w g storeURL with
  | (_, Some templatesErr) =>
    (Errorf ("error while getting templates info: " ++ templatesErr), [])
  | (templatesInfo, None) =>
    let formattedOutput :=
      formatTemplatesOutput templatesInfo (verbose g) (platform g) in
    (None, [formattedOutput])
  end.

End Command.

(** Modelled from the spec: how the runner of the command turns the error
    of [runTemplateStoreList] into the exit status of the process, which
    is nonzero on failure and zero otherwise. *)
Definition exitStatus (err : error) : Z :=
  match err with
  | Some _ => 1
  | None => 0
  end.

(* ================================================================= *)
(** ** Notions used to state the properties *)

(** The text of the unsupported-platform error. *)
Definition unsupportedPlatform (platform : string) : string :=
  newline
  ++ "Currently supported platforms are: armhf, arm64 and x86_64. Unable to find: "
  ++ platform ++ newline ++ newline.

Definition header (verbose : bool) : string :=
  if verbose then verboseHeader else basicHeader.

Definition row (verbose : bool) (template : TemplateInfo) : string :=
  if verbose then verboseRow template else basicRow template.

(** The tab-separated text of a table: a blank line, the header, one row
    per record, a blank line. *)
Definition tableText (verbose : bool) (records : list TemplateInfo) : string :=
  newline ++ header verbose
  ++ fold_right String.append "" (map (row verbose) records)
  ++ newline.

(** That text aligned by a tabwriter configured as the command does. *)
Definition renderTable (verbose : bool) (records : list TemplateInfo) : string :=
  string_of_bytes
    (tabwriter.output
       (tabwriter.Flush
          (tabwriter.Write (tabwriter.NewWriter 0 0 1 " "%char 0)
                           (bytes_of_string (tableText verbose records))))).

(** The records of a given platform, in their order. *)
Definition ofPlatform (platform : string) (records : list TemplateInfo)
  : list TemplateInfo :=
  filter (fun template => String.eqb (Platform template) platform) records.

(** Sample records. *)
Definition sampleTemplates : list TemplateInfo :=
  [ {| TemplateName := "python3-flask"; Platform := "x86_64";
       Language := "python3"; Source := "openfaas/templates";
       Description := "Flask template"; Repository := ""; Official := "" |};
    {| TemplateName := "go"; Platform := "arm64"; Language := "golang";
       Source := "openfaas/golang"; Description := "Go"; Repository := "";
       Official := "true" |};
    {| TemplateName := "node"; Platform := "x86_64"; Language := "node";
       Source := "openfaas/node"; Description := "Node"; Repository := "";
       Official := "" |} ].




















(** Modelled from the spec: the command has no encoder; this one writes a
    sequence of records in the JSON shape of section 6 of the spec, an
    array of objects with the members [template], [platform], [language],
    [source], [description], [repo] and [official], in this order and
    without space.  In a string the quote and the backslash are escaped
    with a backslash, a control character is written as a [u00XX] escape,
    and every other byte is written as it is.  [hexDigit] is a digit of
    such an escape. *)
Definition hexDigit (n : Z) : ascii :=
  nth (Z.to_nat n) (bytes_of_string "0123456789abcdef") "0"%char.

(** Modelled from the spec: one byte of a string, as the encoder writes
    it. *)
Definition escapeByte (c : ascii) : bytes :=
  if Ascii.eqb c QUOTE then ["\"%char; QUOTE]
  else if Ascii.eqb c "\" then ["\"%char; "\"%char]
  else if b2z c <? 0x20 then
    ["\"%char; "u"%char; "0"%char; "0"%char;
     hexDigit (b2z c / 16); hexDigit (b2z c mod 16)]
  else [c].

(** Modelled from the spec: the bytes of a string, escaped. *)
Definition escape (s : bytes) : bytes := flat_map escapeByte s.

(** Modelled from the spec: a JSON string. *)
Definition quote (s : string) : bytes :=
  QUOTE :: escape (bytes_of_string s) ++ [QUOTE].

(** Modelled from the spec: members and elements are separated by a
    comma. *)
Fixpoint join (sep : ascii) (parts : list bytes) : bytes :=
  match parts with
  | [] => []
  | [x] => x
  | x :: rest => x ++ sep :: join sep rest
  end.

(** Modelled from the spec: a member is the tag of the field, a colon and
    the value of the field. *)
Definition encodeMember (f : field) (v : TemplateInfo) : bytes :=
  quote (name f) ++ ":"%char :: quote (get f v).

(** Modelled from the spec: a record is an object with the seven members. *)
Definition encodeRecord (v : TemplateInfo) : bytes :=
  "{"%char :: join "," (map (fun f => encodeMember f v) fields) ++ ["}"%char].

(** Modelled from the spec: the store is an array of records. *)
Definition encode (records : list TemplateInfo) : bytes :=
  "["%char :: join "," (map encodeRecord records) ++ ["]"%char].

(** A record all of whose fields are valid UTF-8. *)
Definition validRecord (v : TemplateInfo) : bool :=
  forallb (fun f => utf8.ValidString (get f v)) fields.

(** The lead byte of a rune of several bytes, with its entry in the table
    [first]. *)
Inductive leadKind : Z -> Z -> Prop :=
| lead_s1 x : 194 <= x < 224 -> leadKind x utf8.s1
| lead_s2 : leadKind 224 utf8.s2
| lead_s3 x : 225 <= x < 237 \/ 238 <= x < 240 -> leadKind x utf8.s3
| lead_s4 : leadKind 237 utf8.s4
| lead_s5 : leadKind 240 utf8.s5
| lead_s6 x : 241 <= x < 244 -> leadKind x utf8.s6
| lead_s7 : leadKind 244 utf8.s7.

(** What a rune of several bytes at the head of [p] looks like. *)
Definition runeAt (p pre : bytes) (r : Z) : Prop :=
  (exists post, p = pre ++ post)
  /\ Forall (fun c => 128 <= b2z c) pre
  /\ (forall post', utf8.DecodeRune (pre ++ post') = (r, length pre))
  /\ utf8.EncodeRune r = pre.

(** A text made of ASCII bytes and of runes of several bytes that
    [DecodeRune] and [EncodeRune] map to each other. *)
Inductive wellFormed : bytes -> Prop :=
| wf_nil : wellFormed []
| wf_ascii c s : b2z c < 128 -> wellFormed s -> wellFormed (c :: s)
| wf_rune pre r s :
    pre <> [] ->
    Forall (fun c => 128 <= b2z c) pre ->
    (forall post, utf8.DecodeRune (pre ++ post) = (r, length pre)) ->
    utf8.EncodeRune r = pre ->
    wellFormed s ->
    wellFormed (pre ++ s).

(** The member and the object the parser reads for a field and a record
    written by the encoder. *)
Definition memberOf (v : TemplateInfo) (f : field) : bytes * json.Value :=
  (escape (bytes_of_string (name f)),
   json.String_ (escape (bytes_of_string (get f v)))).

Definition objectOf (v : TemplateInfo) : json.Value :=
  json.Object (map (memberOf v) fields).




(** A record whose name is the single byte 0xFF, which is not UTF-8. *)
Definition badRecord : TemplateInfo :=
  {| TemplateName := String "255" ""; Platform := "x86_64"; Language := "";
     Source := ""; Description := ""; Repository := ""; Official := "" |}.

(** A world in which the request to [url] is answered by [res]. *)
Definition answers (w : World) (url : string) (res : Response) : Prop :=
  NewRequest w url = None /\ Do w url = inl res.

(** A response with the given status and a body that reads as [data]. *)
Definition responseOf (status : Z) (data : bytes) : Response :=
  {| StatusCode := status;
     Body := Some {| ReadAll := (data, None) |} |}.




(* ================================================================= *)
(** * Properties *)

(** ** Strings and bytes *)

Lemma bytes_of_string_app (s1 s2 : string) :
  bytes_of_string (s1 ++ s2) = bytes_of_string s1 ++ bytes_of_string s2.
Proof.
  induction s1 as [|c s1 IH]; simpl; [reflexivity|].
  now rewrite <- IH.
Qed.

Lemma string_app_assoc (s1 s2 s3 : string) :
  ((s1 ++ s2) ++ s3 = s1 ++ (s2 ++ s3))%string.
Proof.
  induction s1 as [|c s1 IH]; simpl; [reflexivity|].
  now rewrite IH.
Qed.


Lemma string_app_inv_head (s t1 t2 : string) :
  (s ++ t1 = s ++ t2)%string -> t1 = t2.
Proof.
  induction s as [|c s IH]; simpl; intros H; [exact H|].
  injection H as H. auto.
Qed.

(** ** The platform check *)

Lemma checkExistingPlatforms_eq (platform : string) :
  checkExistingPlatforms platform =
  if existsb (String.eqb platform) availablePlatforms
  then None
  else Errorf (unsupportedPlatform platform).
Proof.
  unfold checkExistingPlatforms, availablePlatforms, unsupportedPlatform.
  cbn [checkExistingPlatforms_loop existsb length].
  rewrite (String.eqb_sym "armhf"), (String.eqb_sym "x86_64"),
    (String.eqb_sym "arm64").
  destruct (String.eqb platform "armhf"); [reflexivity|].
  destruct (String.eqb platform "x86_64"); [reflexivity|].
  destruct (String.eqb platform "arm64"); reflexivity.
Qed.

Lemma existsb_available (platform : string) :
  existsb (String.eqb platform) availablePlatforms = true
  <-> In platform availablePlatforms.
Proof.
  rewrite existsb_exists. split.
  - intros (x & Hin & Heq). apply String.eqb_eq in Heq. now subst.
  - intros Hin. exists platform. split; [exact Hin | apply String.eqb_refl].
Qed.

(** C10: [checkExistingPlatforms] returns no error exactly for the members
    of the supported set, the last one included, and the
    unsupported-platform error for every other string, the empty string
    included. *)
Theorem C10_checkExistingPlatforms_iff (platform : string) :
  (checkExistingPlatforms platform = None
   <-> platform = "armhf" \/ platform = "x86_64" \/ platform = "arm64")
  /\ (checkExistingPlatforms platform = None
      \/ checkExistingPlatforms platform
         = Errorf (unsupportedPlatform platform))
  /\ checkExistingPlatforms "arm64" = None
  /\ checkExistingPlatforms "" = Errorf (unsupportedPlatform "").
Proof.
  split; [|split; [|split; reflexivity]].
  - rewrite checkExistingPlatforms_eq.
    destruct (existsb (String.eqb platform) availablePlatforms) eqn:E.
    + apply existsb_available in E. simpl in E. intuition congruence.
    + split; [discriminate|]. intros H.
      assert (In platform availablePlatforms) as Hin
          by (simpl; intuition congruence).
      apply existsb_available in Hin. congruence.
  - rewrite checkExistingPlatforms_eq.
    destruct (existsb (String.eqb platform) availablePlatforms); auto.
Qed.

(** ** What the formatter writes *)

Lemma Write_app (b : tabwriter.Writer) (x y : bytes) :
  tabwriter.Write b (x ++ y) = tabwriter.Write (tabwriter.Write b x) y.
Proof. apply fold_left_app. Qed.

Lemma Fprintf_app (w : tabwriter.Writer) (s1 s2 : string) :
  Fprintf (Fprintf w s1) s2 = Fprintf w (s1 ++ s2).
Proof.
  unfold Fprintf. now rewrite bytes_of_string_app, Write_app.
Qed.

Lemma Fprintf_nil (w : tabwriter.Writer) : Fprintf w "" = w.
Proof. reflexivity. Qed.

Section Rows.

Variable rowOf : TemplateInfo -> string.

Lemma fold_rows_all (templates : list TemplateInfo) (w : tabwriter.Writer) :
  fold_left (fun lineWriter template => Fprintf lineWriter (rowOf template))
            templates w
  = Fprintf w (fold_right String.append "" (map rowOf templates)).
Proof.
  revert w. induction templates as [|t ts IH]; intros w; simpl.
  - now rewrite Fprintf_nil.
  - now rewrite IH, Fprintf_app.
Qed.

Lemma fold_rows_filtered (platform : string) (templates : list TemplateInfo)
      (w : tabwriter.Writer) :
  fold_left (fun lineWriter template =>
               if String.eqb (Platform template) platform
               then Fprintf lineWriter (rowOf template)
               else lineWriter)
            templates w
  = Fprintf w (fold_right String.append ""
                          (map rowOf (ofPlatform platform templates))).
Proof.
  revert w. induction templates as [|t ts IH]; intros w; simpl.
  - now rewrite Fprintf_nil.
  - destruct (String.eqb (Platform t) platform); simpl.
    + now rewrite IH, Fprintf_app.
    + apply IH.
Qed.

End Rows.

Lemma formatBasicOutput_eq (w : tabwriter.Writer)
      (templates : list TemplateInfo) (platform : string) :
  formatBasicOutput w templates platform
  = Fprintf w (basicHeader
               ++ fold_right String.append ""
                    (map basicRow
                         (if String.eqb platform allPlatforms then templates
                          else ofPlatform platform templates))).
Proof.
  unfold formatBasicOutput.
  destruct (String.eqb platform allPlatforms); simpl negb; cbv iota.
  - now rewrite fold_rows_all, Fprintf_app.
  - now rewrite fold_rows_filtered, Fprintf_app.
Qed.

Lemma formatVerboseOutput_eq (w : tabwriter.Writer)
      (templates : list TemplateInfo) (platform : string) :
  formatVerboseOutput w templates platform
  = Fprintf w (verboseHeader
               ++ fold_right String.append ""
                    (map verboseRow
                         (if String.eqb platform allPlatforms then templates
                          else ofPlatform platform templates))).
Proof.
  unfold formatVerboseOutput.
  destruct (String.eqb platform allPlatforms); simpl negb; cbv iota.
  - now rewrite fold_rows_all, Fprintf_app.
  - now rewrite fold_rows_filtered, Fprintf_app.
Qed.

(** The formatter, once the platform has passed the check: the table of
    the selected records. *)
Lemma formatTemplatesOutput_table (templates : list TemplateInfo)
      (verbose : bool) (platform : string) :
  (if negb (String.eqb platform allPlatforms)
   then checkExistingPlatforms platform else None) = None ->
  formatTemplatesOutput templates verbose platform
  = renderTable verbose
      (if String.eqb platform allPlatforms then templates
       else ofPlatform platform templates).
Proof.
  intros Hcheck. unfold formatTemplatesOutput. rewrite Hcheck.
  unfold renderTable, tableText, header, row, Fprintln.
  do 2 f_equal. f_equal.
  destruct verbose.
  - rewrite formatVerboseOutput_eq. unfold Fprintf.
    rewrite <- !Write_app, <- !bytes_of_string_app.
    now rewrite !string_app_assoc.
  - rewrite formatBasicOutput_eq. unfold Fprintf.
    rewrite <- !Write_app, <- !bytes_of_string_app.
    now rewrite !string_app_assoc.
Qed.

Lemma allPlatforms_not_available : ~ In allPlatforms availablePlatforms.
Proof.
  unfold allPlatforms, availablePlatforms. simpl.
  intros [H|[H|[H|[]]]]; discriminate H.
Qed.

(** C1: for a supported platform other than the sentinel, the formatter
    renders the table of exactly the records whose platform is the
    requested one, in the order of the input; with the sentinel it renders
    the table of all the records. *)
Theorem C1_platform_filter (templates : list TemplateInfo) (verbose : bool)
        (platform : string) :
  In platform availablePlatforms ->
  platform <> allPlatforms
  /\ formatTemplatesOutput templates verbose platform
     = renderTable verbose (ofPlatform platform templates)
  /\ formatTemplatesOutput templates verbose allPlatforms
     = renderTable verbose templates.
Proof.
  intros Hin.
  assert (platform <> allPlatforms) as Hne.
  { intros ->. exact (allPlatforms_not_available Hin). }
  split; [exact Hne|]. split.
  - rewrite formatTemplatesOutput_table.
    + apply String.eqb_neq in Hne. now rewrite Hne.
    + apply String.eqb_neq in Hne. rewrite Hne. simpl negb. cbv iota.
      rewrite checkExistingPlatforms_eq.
      apply existsb_available in Hin. now rewrite Hin.
  - now rewrite formatTemplatesOutput_table.
Qed.

Lemma C1_platform_filter_witness :
  In "arm64" availablePlatforms
  /\ "arm64" <> allPlatforms
  /\ formatTemplatesOutput sampleTemplates true "arm64"
     = renderTable true (ofPlatform "arm64" sampleTemplates)
  /\ formatTemplatesOutput sampleTemplates true allPlatforms
     = renderTable true sampleTemplates.
Proof.
  assert (In "arm64" availablePlatforms) as Hin by (simpl; tauto).
  split; [exact Hin|].
  exact (C1_platform_filter sampleTemplates true "arm64" Hin).
Defined.

(** C2 as stated fails: the text the formatter returns for an unsupported
    platform is not the bare message. *)
Lemma C2_counterexample :
  formatTemplatesOutput [] false "mips"
  <> "Currently supported platforms are: armhf, arm64 and x86_64. Unable to find: mips".
Proof. vm_compute. discriminate. Qed.

(** C2, amended: for every list of records the formatter returns, for the
    unsupported platform [mips] in basic mode, exactly the message between
    one newline before it and two after it, and no table; the text is the
    result of the formatter, not an error. *)
Theorem C2_unsupported_platform_text (templates : list TemplateInfo) :
  formatTemplatesOutput templates false "mips"
  = (newline
     ++ "Currently supported platforms are: armhf, arm64 and x86_64. Unable to find: mips"
     ++ newline ++ newline)%string.
Proof. reflexivity. Qed.

(** ** The tabwriter on the text of a table *)




Lemma formatLoop_lack b F widths ls :
  (forall l, In l ls -> tabwriter.lacksColumn (length widths) l = true) ->
  tabwriter.formatLoop b F widths [] ls = map (tabwriter.writeCells b widths) ls.
Proof.
  induction ls as [|l ls IH]; intros H; simpl; [reflexivity|].
  rewrite (H l) by (now left). simpl. f_equal. apply IH.
  intros l' Hl'. apply H. now right.
Qed.




Lemma string_of_bytes_of_string (s : string) :
  string_of_bytes (bytes_of_string s) = s.
Proof. apply string_of_list_ascii_of_string. Qed.

Lemma bytes_of_string_of_bytes (x : bytes) :
  bytes_of_string (string_of_bytes x) = x.
Proof. apply list_ascii_of_string_of_list_ascii. Qed.






Lemma maxCells_ge (ls : list (list tabwriter.cell)) (l : list tabwriter.cell) :
  In l ls -> (length l <= tabwriter.maxCells ls)%nat.
Proof.
  induction ls as [|l0 ls IH]; intros Hin; [destruct Hin|].
  simpl. destruct Hin as [->|Hin]; [lia|]. specialize (IH Hin). lia.
Qed.











(** ** Every line is rendered by [writeCells], with widths that stop
    before its last cell *)














(** ** The end of the output *)












(** ** The beginning of the output *)













(** ** The command *)

(** C3: when fetching or decoding fails, the command returns that error
    behind the prefix "error while getting templates info: ", exits with a
    nonzero status and writes nothing; otherwise it returns no error,
    exits with status zero and writes the text of the formatter exactly
    once, whatever the platform flag, an unsupported one included. *)
Theorem C3_command_outcome (jsonError : json.Error -> string) (w : World)
        (g : Flags) :
  let storeURL :=
    getTemplateStoreURL (templateStoreURL g)
                        (Getenv w templateStoreURLEnvironment)
                        DefaultTemplatesStore in
  match getTemplateInfo jsonError w g storeURL with
  | (_, Some templatesErr) =>
    runTemplateStoreList jsonError w g
    = (Errorf ("error while getting templates info: " ++ templatesErr), [])
    /\ exitStatus (fst (runTemplateStoreList jsonError w g)) <> 0
  | (templatesInfo, None) =>
    runTemplateStoreList jsonError w g
    = (None, [formatTemplatesOutput templatesInfo (verbose g) (platform g)])
    /\ exitStatus (fst (runTemplateStoreList jsonError w g)) = 0
  end.
Proof.
  intros storeURL. unfold runTemplateStoreList. fold storeURL.
  destruct (getTemplateInfo jsonError w g storeURL) as [infos [e|]]; simpl.
  - split; [reflexivity | discriminate].
  - split; reflexivity.
Qed.

(** A platform outside the supported set does not make the command fail:
    the message is what the command writes. *)
Lemma unsupported_platform_is_written (jsonError : json.Error -> string)
      (w : World) (g : Flags) (templatesInfo : list TemplateInfo) :
  getTemplateInfo jsonError w g
    (getTemplateStoreURL (templateStoreURL g)
                         (Getenv w templateStoreURLEnvironment)
                         DefaultTemplatesStore)
  = (templatesInfo, None) ->
  platform g <> allPlatforms -> ~ In (platform g) availablePlatforms ->
  runTemplateStoreList jsonError w g
  = (None, [unsupportedPlatform (platform g)]).
Proof.
  intros Hget Hne Hnot. unfold runTemplateStoreList. rewrite Hget.
  unfold formatTemplatesOutput.
  apply String.eqb_neq in Hne. rewrite Hne. cbn [negb].
  rewrite checkExistingPlatforms_eq.
  destruct (existsb (String.eqb (platform g)) availablePlatforms) eqn:E.
  - apply existsb_available in E. contradiction.
  - reflexivity.
Qed.

(** C4: the resolver returns the override if it is not empty, else the
    environment value if it is not empty, else the default; it is a total
    function of its three arguments. *)
Theorem C4_store_url_precedence (argumentURL environmentURL defaultURL : string) :
  (argumentURL <> "" ->
   getTemplateStoreURL argumentURL environmentURL defaultURL = argumentURL)
  /\ (argumentURL = "" -> environmentURL <> "" ->
      getTemplateStoreURL argumentURL environmentURL defaultURL
      = environmentURL)
  /\ (argumentURL = "" -> environmentURL = "" ->
      getTemplateStoreURL argumentURL environmentURL defaultURL = defaultURL).
Proof.
  unfold getTemplateStoreURL. repeat split.
  - intros H. apply String.eqb_neq in H. now rewrite H.
  - intros -> H. apply String.eqb_neq in H. now rewrite H.
  - now intros -> ->.
Qed.

Lemma C4_store_url_precedence_witness :
  getTemplateStoreURL "https://flag" "https://env" "https://default"
  = "https://flag"
  /\ getTemplateStoreURL "" "https://env" "https://default" = "https://env"
  /\ getTemplateStoreURL "" "" "https://default" = "https://default".
Proof.
  split; [|split].
  - apply (C4_store_url_precedence "https://flag" "https://env"
                                   "https://default").
    discriminate.
  - apply (C4_store_url_precedence "" "https://env" "https://default").
    + reflexivity.
    + discriminate.
  - apply (C4_store_url_precedence "" "" "https://default"); reflexivity.
Defined.






(** ** UTF-8: decoding and encoding a rune *)

Lemma b2z_range (c : ascii) : 0 <= b2z c < 256.
Proof.
  unfold b2z. pose proof (N_ascii_bounded c) as H. lia.
Qed.

Lemma z2b_b2z (c : ascii) : z2b (b2z c) = c.
Proof.
  unfold z2b. rewrite Z.mod_small by apply b2z_range.
  unfold b2z. rewrite N2Z.id. apply ascii_N_embedding.
Qed.

Lemma b2z_z2b (x : Z) : 0 <= x < 256 -> b2z (z2b x) = x.
Proof.
  intros H. unfold z2b, b2z. rewrite Z.mod_small by exact H.
  rewrite N_ascii_embedding by lia. lia.
Qed.

Lemma b2z_inj (c d : ascii) : b2z c = b2z d -> c = d.
Proof.
  intros H. rewrite <- (z2b_b2z c), <- (z2b_b2z d). now rewrite H.
Qed.

Lemma lor_shiftl_small (x y n : Z) :
  0 <= n -> 0 <= x -> 0 <= y < 2 ^ n ->
  Z.lor (Z.shiftl x n) y = x * 2 ^ n + y.
Proof.
  intros Hn Hx Hy. rewrite Z.shiftl_mul_pow2 by exact Hn.
  pose proof (Z.add_lor_land (x * 2 ^ n) y) as Hadd.
  enough (Z.land (x * 2 ^ n) y = 0) as Hland by lia.
  apply Z.bits_inj'. intros k Hk. rewrite Z.land_spec, Z.bits_0.
  destruct (Z.ltb_spec k n) as [Hlt|Hge].
  - rewrite Z.mul_pow2_bits_low by lia. reflexivity.
  - rewrite andb_comm.
    destruct (Z.eq_dec y 0) as [->|Hy0]; [now rewrite Z.bits_0|].
    assert (2 ^ n <= 2 ^ k) by (apply Z.pow_le_mono_r; lia).
    rewrite Z.bits_above_log2; [reflexivity|lia|].
    apply Z.log2_lt_pow2; lia.
Qed.

Lemma land_maskx (x : Z) : Z.land x utf8.maskx = x mod 64.
Proof. change utf8.maskx with (Z.ones 6). apply Z.land_ones. lia. Qed.

Lemma land_mask2 (x : Z) : Z.land x utf8.mask2 = x mod 32.
Proof. change utf8.mask2 with (Z.ones 5). apply Z.land_ones. lia. Qed.

Lemma land_mask3 (x : Z) : Z.land x utf8.mask3 = x mod 16.
Proof. change utf8.mask3 with (Z.ones 4). apply Z.land_ones. lia. Qed.

Lemma land_mask4 (x : Z) : Z.land x utf8.mask4 = x mod 8.
Proof. change utf8.mask4 with (Z.ones 3). apply Z.land_ones. lia. Qed.

Lemma lor_tx (y : Z) : 0 <= y < 64 -> Z.lor utf8.tx y = 128 + y.
Proof.
  intros H. change utf8.tx with (Z.shiftl 2 6).
  rewrite lor_shiftl_small; lia.
Qed.

Lemma lor_t2 (y : Z) : 0 <= y < 32 -> Z.lor utf8.t2 y = 192 + y.
Proof.
  intros H. change utf8.t2 with (Z.shiftl 6 5).
  rewrite lor_shiftl_small; lia.
Qed.

Lemma lor_t3 (y : Z) : 0 <= y < 16 -> Z.lor utf8.t3 y = 224 + y.
Proof.
  intros H. change utf8.t3 with (Z.shiftl 14 4).
  rewrite lor_shiftl_small; lia.
Qed.

Lemma lor_t4 (y : Z) : 0 <= y < 8 -> Z.lor utf8.t4 y = 240 + y.
Proof.
  intros H. change utf8.t4 with (Z.shiftl 30 3).
  rewrite lor_shiftl_small; lia.
Qed.

(** The rune of a two-byte sequence and its encoding. *)
Lemma rune2 (x0 x1 : Z) :
  192 <= x0 < 224 -> 128 <= x1 < 192 ->
  Z.lor (Z.shiftl (Z.land x0 utf8.mask2) 6) (Z.land x1 utf8.maskx)
  = (x0 - 192) * 64 + (x1 - 128).
Proof.
  intros H0 H1. rewrite land_mask2, land_maskx.
  rewrite lor_shiftl_small; try lia.
  - change (2 ^ 6) with 64.
    replace (x0 mod 32) with (x0 - 192)
      by (Z.div_mod_to_equations; lia).
    replace (x1 mod 64) with (x1 - 128)
      by (Z.div_mod_to_equations; lia).
    reflexivity.
  - apply Z.mod_pos_bound. lia.
  - change (2 ^ 6) with 64. apply Z.mod_pos_bound. lia.
Qed.

Lemma rune3 (x0 x1 x2 : Z) :
  224 <= x0 < 240 -> 128 <= x1 < 192 -> 128 <= x2 < 192 ->
  Z.lor (Z.lor (Z.shiftl (Z.land x0 utf8.mask3) 12)
               (Z.shiftl (Z.land x1 utf8.maskx) 6))
        (Z.land x2 utf8.maskx)
  = (x0 - 224) * 4096 + (x1 - 128) * 64 + (x2 - 128).
Proof.
  intros H0 H1 H2. rewrite land_mask3, !land_maskx.
  replace (x0 mod 16) with (x0 - 224) by (Z.div_mod_to_equations; lia).
  replace (x1 mod 64) with (x1 - 128) by (Z.div_mod_to_equations; lia).
  replace (x2 mod 64) with (x2 - 128) by (Z.div_mod_to_equations; lia).
  rewrite (Z.shiftl_mul_pow2 (x1 - 128)) by lia.
  rewrite (lor_shiftl_small (x0 - 224)) by lia.
  replace ((x0 - 224) * 2 ^ 12 + (x1 - 128) * 2 ^ 6)
    with (Z.shiftl ((x0 - 224) * 64 + (x1 - 128)) 6)
    by (rewrite Z.shiftl_mul_pow2 by lia; lia).
  rewrite lor_shiftl_small by lia. lia.
Qed.

Lemma rune4 (x0 x1 x2 x3 : Z) :
  240 <= x0 < 248 -> 128 <= x1 < 192 -> 128 <= x2 < 192 ->
  128 <= x3 < 192 ->
  Z.lor (Z.lor (Z.lor (Z.shiftl (Z.land x0 utf8.mask4) 18)
                      (Z.shiftl (Z.land x1 utf8.maskx) 12))
               (Z.shiftl (Z.land x2 utf8.maskx) 6))
        (Z.land x3 utf8.maskx)
  = (x0 - 240) * 262144 + (x1 - 128) * 4096 + (x2 - 128) * 64 + (x3 - 128).
Proof.
  intros H0 H1 H2 H3. rewrite land_mask4, !land_maskx.
  replace (x0 mod 8) with (x0 - 240) by (Z.div_mod_to_equations; lia).
  replace (x1 mod 64) with (x1 - 128) by (Z.div_mod_to_equations; lia).
  replace (x2 mod 64) with (x2 - 128) by (Z.div_mod_to_equations; lia).
  replace (x3 mod 64) with (x3 - 128) by (Z.div_mod_to_equations; lia).
  rewrite (Z.shiftl_mul_pow2 (x1 - 128)) by lia.
  rewrite (lor_shiftl_small (x0 - 240)) by lia.
  rewrite (Z.shiftl_mul_pow2 (x2 - 128)) by lia.
  replace ((x0 - 240) * 2 ^ 18 + (x1 - 128) * 2 ^ 12)
    with (Z.shiftl ((x0 - 240) * 64 + (x1 - 128)) 12)
    by (rewrite Z.shiftl_mul_pow2 by lia; lia).
  rewrite lor_shiftl_small by lia.
  replace (((x0 - 240) * 64 + (x1 - 128)) * 2 ^ 12 + (x2 - 128) * 2 ^ 6)
    with (Z.shiftl (((x0 - 240) * 64 + (x1 - 128)) * 64 + (x2 - 128)) 6)
    by (rewrite Z.shiftl_mul_pow2 by lia; lia).
  rewrite lor_shiftl_small by lia. lia.
Qed.

(** The bytes [EncodeRune] stores, in arithmetic. *)
Lemma encode2 (r : Z) :
  128 <= r < 2048 ->
  utf8.EncodeRune r = [z2b (192 + r / 64); z2b (128 + r mod 64)].
Proof.
  intros H. unfold utf8.EncodeRune.
  rewrite (Z.mod_small r) by lia.
  change utf8.rune1Max with 127. change utf8.rune2Max with 2047.
  destruct (Z.leb_spec r 127); [lia|].
  destruct (Z.leb_spec r 2047); [|lia].
  rewrite land_maskx, Z.shiftr_div_pow2 by lia. change (2 ^ 6) with 64.
  rewrite lor_t2 by (Z.div_mod_to_equations; lia).
  rewrite lor_tx by (Z.div_mod_to_equations; lia).
  reflexivity.
Qed.

Lemma encode3 (r : Z) :
  2048 <= r < 65536 -> ~ (55296 <= r <= 57343) ->
  utf8.EncodeRune r
  = [z2b (224 + r / 4096); z2b (128 + (r / 64) mod 64); z2b (128 + r mod 64)].
Proof.
  intros H Hs. unfold utf8.EncodeRune.
  rewrite (Z.mod_small r) by lia.
  change utf8.rune1Max with 127. change utf8.rune2Max with 2047.
  change utf8.rune3Max with 65535. change utf8.MaxRune with 1114111.
  change utf8.surrogateMin with 55296. change utf8.surrogateMax with 57343.
  destruct (Z.leb_spec r 127); [lia|].
  destruct (Z.leb_spec r 2047); [lia|].
  destruct (Z.ltb_spec 1114111 r); [lia|].
  assert ((55296 <=? r) && (r <=? 57343) = false) as ->.
  { destruct (Z.leb_spec 55296 r); [|reflexivity].
    destruct (Z.leb_spec r 57343); [lia|reflexivity]. }
  cbn [orb]. destruct (Z.leb_spec r 65535); [|lia].
  rewrite !land_maskx, !Z.shiftr_div_pow2 by lia.
  change (2 ^ 6) with 64. change (2 ^ 12) with 4096.
  rewrite lor_t3 by (Z.div_mod_to_equations; lia).
  rewrite !lor_tx by (Z.div_mod_to_equations; lia).
  reflexivity.
Qed.

Lemma encode4 (r : Z) :
  65536 <= r <= 1114111 ->
  utf8.EncodeRune r
  = [z2b (240 + r / 262144); z2b (128 + (r / 4096) mod 64);
     z2b (128 + (r / 64) mod 64); z2b (128 + r mod 64)].
Proof.
  intros H. unfold utf8.EncodeRune.
  rewrite (Z.mod_small r) by lia.
  change utf8.rune1Max with 127. change utf8.rune2Max with 2047.
  change utf8.rune3Max with 65535. change utf8.MaxRune with 1114111.
  change utf8.surrogateMin with 55296. change utf8.surrogateMax with 57343.
  destruct (Z.leb_spec r 127); [lia|].
  destruct (Z.leb_spec r 2047); [lia|].
  destruct (Z.ltb_spec 1114111 r); [lia|].
  assert ((55296 <=? r) && (r <=? 57343) = false) as ->.
  { destruct (Z.leb_spec 55296 r); [|reflexivity].
    destruct (Z.leb_spec r 57343); [lia|reflexivity]. }
  cbn [orb]. destruct (Z.leb_spec r 65535); [lia|].
  rewrite !land_maskx, !Z.shiftr_div_pow2 by lia.
  change (2 ^ 6) with 64. change (2 ^ 12) with 4096.
  change (2 ^ 18) with 262144.
  rewrite lor_t4 by (Z.div_mod_to_equations; lia).
  rewrite !lor_tx by (Z.div_mod_to_equations; lia).
  reflexivity.
Qed.



Lemma first_cases (x : Z) :
  128 <= x < 256 -> utf8.first x = utf8.xx \/ leadKind x (utf8.first x).
Proof.
  intros H. unfold utf8.first.
  destruct (Z.ltb_spec x 128); [lia|].
  destruct (Z.ltb_spec x 194); [now left|].
  destruct (Z.ltb_spec x 224); [right; constructor; lia|].
  destruct (Z.eqb_spec x 224); [subst; right; constructor|].
  destruct (Z.ltb_spec x 237); [right; constructor; lia|].
  destruct (Z.eqb_spec x 237); [subst; right; constructor|].
  destruct (Z.ltb_spec x 240); [right; constructor; lia|].
  destruct (Z.eqb_spec x 240); [subst; right; constructor|].
  destruct (Z.ltb_spec x 244); [right; constructor; lia|].
  destruct (Z.eqb_spec x 244); [subst; right; constructor|].
  now left.
Qed.


Lemma valid_rune3 (c0 : ascii) (p : bytes) (size : nat) (s lo hi : Z) :
  s = utf8.first (b2z c0) ->
  (s =? utf8.xx) = false -> (s >=? utf8.as_) = false ->
  Z.to_nat (Z.land s 7) = 3%nat ->
  utf8.acceptRanges (Z.shiftr s 4) = (lo, hi) ->
  224 <= b2z c0 < 240 -> 128 <= lo -> hi <= 191 ->
  (b2z c0 = 224 -> 160 <= lo) -> (b2z c0 = 237 -> hi <= 159) ->
  utf8.validStep (c0 :: p) = Some size ->
  exists pre r, length pre = size /\ runeAt (c0 :: p) pre r.
Proof.
  intros E Hxx Has Hsz Hacc R0 Hlo Hhi H224 H237 Hstep.
  unfold utf8.validStep, utf8.at_ in Hstep. cbn [nth] in Hstep.
  change utf8.RuneSelf with 128 in Hstep.
  destruct (Z.ltb_spec (b2z c0) 128) as [|_]; [lia|].
  rewrite <- E, Hxx, Hsz, Hacc in Hstep.
  destruct p as [|c1 [|c2 p]]; try discriminate Hstep.
  cbn [length Nat.ltb Nat.leb nth fst snd Nat.eqb] in Hstep.
  change utf8.locb with 128 in Hstep. change utf8.hicb with 191 in Hstep.
  destruct (Z.ltb_spec (b2z c1) lo); [discriminate Hstep|].
  destruct (Z.ltb_spec hi (b2z c1)); [discriminate Hstep|].
  destruct (Z.ltb_spec (b2z c2) 128); [discriminate Hstep|].
  destruct (Z.ltb_spec 191 (b2z c2)); [discriminate Hstep|].
  cbn in Hstep. injection Hstep as <-.
  exists [c0; c1; c2],
    ((b2z c0 - 224) * 4096 + (b2z c1 - 128) * 64 + (b2z c2 - 128)).
  split; [reflexivity|]. split; [now exists p|].
  split; [repeat constructor; lia|]. split.
  - intros post'. unfold utf8.DecodeRune. cbn [app].
    rewrite <- E, Has, Hsz, Hacc. unfold utf8.at_.
    cbn [length Nat.ltb Nat.leb nth fst snd Nat.eqb].
    change utf8.locb with 128. change utf8.hicb with 191.
    destruct (Z.ltb_spec (b2z c1) lo); [lia|].
    destruct (Z.ltb_spec hi (b2z c1)); [lia|].
    destruct (Z.ltb_spec (b2z c2) 128); [lia|].
    destruct (Z.ltb_spec 191 (b2z c2)); [lia|].
    cbn [orb]. rewrite rune3 by lia. reflexivity.
  - rewrite encode3 by lia.
    replace (224 + ((b2z c0 - 224) * 4096 + (b2z c1 - 128) * 64
                    + (b2z c2 - 128)) / 4096)
      with (b2z c0) by (Z.div_mod_to_equations; lia).
    replace (128 + (((b2z c0 - 224) * 4096 + (b2z c1 - 128) * 64
                     + (b2z c2 - 128)) / 64) mod 64)
      with (b2z c1) by (Z.div_mod_to_equations; lia).
    replace (128 + ((b2z c0 - 224) * 4096 + (b2z c1 - 128) * 64
                    + (b2z c2 - 128)) mod 64)
      with (b2z c2) by (Z.div_mod_to_equations; lia).
    now rewrite !z2b_b2z.
Qed.

Lemma valid_rune4 (c0 : ascii) (p : bytes) (size : nat) (s lo hi : Z) :
  s = utf8.first (b2z c0) ->
  (s =? utf8.xx) = false -> (s >=? utf8.as_) = false ->
  Z.to_nat (Z.land s 7) = 4%nat ->
  utf8.acceptRanges (Z.shiftr s 4) = (lo, hi) ->
  240 <= b2z c0 < 245 -> 128 <= lo -> hi <= 191 ->
  (b2z c0 = 240 -> 144 <= lo) -> (b2z c0 = 244 -> hi <= 143) ->
  utf8.validStep (c0 :: p) = Some size ->
  exists pre r, length pre = size /\ runeAt (c0 :: p) pre r.
Proof.
  intros E Hxx Has Hsz Hacc R0 Hlo Hhi H240 H244 Hstep.
  unfold utf8.validStep, utf8.at_ in Hstep. cbn [nth] in Hstep.
  change utf8.RuneSelf with 128 in Hstep.
  destruct (Z.ltb_spec (b2z c0) 128) as [|_]; [lia|].
  rewrite <- E, Hxx, Hsz, Hacc in Hstep.
  destruct p as [|c1 [|c2 [|c3 p]]]; try discriminate Hstep.
  cbn [length Nat.ltb Nat.leb nth fst snd Nat.eqb] in Hstep.
  change utf8.locb with 128 in Hstep. change utf8.hicb with 191 in Hstep.
  destruct (Z.ltb_spec (b2z c1) lo); [discriminate Hstep|].
  destruct (Z.ltb_spec hi (b2z c1)); [discriminate Hstep|].
  destruct (Z.ltb_spec (b2z c2) 128); [discriminate Hstep|].
  destruct (Z.ltb_spec 191 (b2z c2)); [discriminate Hstep|].
  destruct (Z.ltb_spec (b2z c3) 128); [discriminate Hstep|].
  destruct (Z.ltb_spec 191 (b2z c3)); [discriminate Hstep|].
  cbn in Hstep. injection Hstep as <-.
  exists [c0; c1; c2; c3],
    ((b2z c0 - 240) * 262144 + (b2z c1 - 128) * 4096 + (b2z c2 - 128) * 64
     + (b2z c3 - 128)).
  split; [reflexivity|]. split; [now exists p|].
  split; [repeat constructor; lia|]. split.
  - intros post'. unfold utf8.DecodeRune. cbn [app].
    rewrite <- E, Has, Hsz, Hacc. unfold utf8.at_.
    cbn [length Nat.ltb Nat.leb nth fst snd Nat.eqb].
    change utf8.locb with 128. change utf8.hicb with 191.
    destruct (Z.ltb_spec (b2z c1) lo); [lia|].
    destruct (Z.ltb_spec hi (b2z c1)); [lia|].
    destruct (Z.ltb_spec (b2z c2) 128); [lia|].
    destruct (Z.ltb_spec 191 (b2z c2)); [lia|].
    destruct (Z.ltb_spec (b2z c3) 128); [lia|].
    destruct (Z.ltb_spec 191 (b2z c3)); [lia|].
    cbn [orb]. rewrite rune4 by lia. reflexivity.
  - rewrite encode4 by lia.
    replace (240 + ((b2z c0 - 240) * 262144 + (b2z c1 - 128) * 4096
                    + (b2z c2 - 128) * 64 + (b2z c3 - 128)) / 262144)
      with (b2z c0) by (Z.div_mod_to_equations; lia).
    replace (128 + (((b2z c0 - 240) * 262144 + (b2z c1 - 128) * 4096
                     + (b2z c2 - 128) * 64 + (b2z c3 - 128)) / 4096) mod 64)
      with (b2z c1) by (Z.div_mod_to_equations; lia).
    replace (128 + (((b2z c0 - 240) * 262144 + (b2z c1 - 128) * 4096
                     + (b2z c2 - 128) * 64 + (b2z c3 - 128)) / 64) mod 64)
      with (b2z c2) by (Z.div_mod_to_equations; lia).
    replace (128 + ((b2z c0 - 240) * 262144 + (b2z c1 - 128) * 4096
                    + (b2z c2 - 128) * 64 + (b2z c3 - 128)) mod 64)
      with (b2z c3) by (Z.div_mod_to_equations; lia).
    now rewrite !z2b_b2z.
Qed.

Lemma valid_rune (p : bytes) (size : nat) :
  utf8.RuneSelf <= utf8.at_ p 0 ->
  utf8.validStep p = Some size ->
  exists pre r, length pre = size /\ runeAt p pre r.
Proof.
  intros Hself Hstep.
  destruct p as [|c0 p];
    [change (utf8.at_ [] 0) with 0 in Hself; unfold utf8.RuneSelf in Hself; lia|].
  unfold utf8.at_ in Hself. cbn [nth] in Hself.
  change utf8.RuneSelf with 128 in *.
  pose proof (b2z_range c0) as R0.
  pose proof Hstep as Hstep0.
  unfold utf8.validStep in Hstep.
  unfold utf8.at_ in Hstep. cbn [nth] in Hstep.
  change utf8.RuneSelf with 128 in Hstep.
  destruct (Z.ltb_spec (b2z c0) 128) as [|_]; [lia|].
  destruct (first_cases (b2z c0)) as [Hxx|Hlead]; [lia| |].
  { rewrite Hxx in Hstep. discriminate Hstep. }
  remember (utf8.first (b2z c0)) as x eqn:Hx.
  inversion Hlead as [x0 Hr E0 E|E0 E|x0 Hr E0 E|E0 E|E0 E|x0 Hr E0 E|E0 E];
    subst x; try subst x0; rewrite <- E in Hstep.
  - (* two bytes *)
    change (Z.to_nat (Z.land utf8.s1 7)) with 2%nat in Hstep.
    change (utf8.acceptRanges (Z.shiftr utf8.s1 4)) with (128, 191) in Hstep.
    change (utf8.s1 =? utf8.xx) with false in Hstep.
    destruct p as [|c1 p]; [discriminate Hstep|].
    cbn [length Nat.ltb Nat.leb nth fst snd Nat.eqb] in Hstep.
    pose proof (b2z_range c1) as R1.
    destruct (Z.ltb_spec (b2z c1) 128); [discriminate Hstep|].
    destruct (Z.ltb_spec 191 (b2z c1)); [discriminate Hstep|].
    cbn in Hstep. injection Hstep as <-.
    exists [c0; c1], ((b2z c0 - 192) * 64 + (b2z c1 - 128)).
    split; [reflexivity|]. split; [now exists p|].
    split; [repeat constructor; lia|]. split.
    + intros post'. unfold utf8.DecodeRune. cbn [app]. rewrite <- E.
      change (utf8.s1 >=? utf8.as_) with false.
      change (Z.to_nat (Z.land utf8.s1 7)) with 2%nat.
      change (utf8.acceptRanges (Z.shiftr utf8.s1 4)) with (128, 191).
      unfold utf8.at_.
      cbn [length Nat.ltb Nat.leb nth fst snd Nat.eqb].
      destruct (Z.ltb_spec (b2z c1) 128); [lia|].
      destruct (Z.ltb_spec 191 (b2z c1)); [lia|].
      cbn [orb]. rewrite rune2 by lia. reflexivity.
    + rewrite encode2 by lia.
      replace (192 + ((b2z c0 - 192) * 64 + (b2z c1 - 128)) / 64)
        with (b2z c0) by (Z.div_mod_to_equations; lia).
      replace (128 + ((b2z c0 - 192) * 64 + (b2z c1 - 128)) mod 64)
        with (b2z c1) by (Z.div_mod_to_equations; lia).
      now rewrite !z2b_b2z.
  - apply (valid_rune3 c0 p size utf8.s2 160 191); try exact Hstep0;
      try assumption; try reflexivity; lia.
  - apply (valid_rune3 c0 p size utf8.s3 128 191); try exact Hstep0;
      try assumption; try reflexivity; lia.
  - apply (valid_rune3 c0 p size utf8.s4 128 159); try exact Hstep0;
      try assumption; try reflexivity; lia.
  - apply (valid_rune4 c0 p size utf8.s5 144 191); try exact Hstep0;
      try assumption; try reflexivity; lia.
  - apply (valid_rune4 c0 p size utf8.s6 128 191); try exact Hstep0;
      try assumption; try reflexivity; lia.
  - apply (valid_rune4 c0 p size utf8.s7 128 143); try exact Hstep0;
      try assumption; try reflexivity; lia.
Qed.

(** ** The decoder on escaped text *)

Lemma Valid_loop_wellFormed (fuel : nat) : forall s,
  utf8.Valid_loop fuel s = true -> wellFormed s.
Proof.
  induction fuel as [|fuel IH]; intros s H.
  - destruct s; [constructor | discriminate H].
  - destruct s as [|c s]; [constructor|].
    cbn [utf8.Valid_loop] in H.
    destruct (utf8.validStep (c :: s)) as [size|] eqn:Hstep;
      [|discriminate H].
    destruct (Z.ltb_spec (b2z c) 128) as [Hlt|Hge].
    + unfold utf8.validStep, utf8.at_ in Hstep. cbn [nth] in Hstep.
      change utf8.RuneSelf with 128 in Hstep.
      destruct (Z.ltb_spec (b2z c) 128); [|lia].
      injection Hstep as <-. apply wf_ascii; [exact Hlt|].
      apply IH. exact H.
    + destruct (valid_rune (c :: s) size) as (pre & r & Hlen & Hrune);
        [exact Hge | exact Hstep |].
      destruct Hrune as ((post & Hpost) & Hall & Hdec & Henc).
      rewrite Hpost in *. rewrite <- Hlen in H.
      rewrite skipn_app, skipn_all, Nat.sub_diag in H. cbn in H.
      apply wf_rune with r; auto.
      intros ->. specialize (Hdec ["a"%char]). vm_compute in Hdec.
      discriminate Hdec.
Qed.

Lemma Valid_wellFormed (s : bytes) : utf8.Valid s = true -> wellFormed s.
Proof. apply Valid_loop_wellFormed. Qed.

Lemma escapeByte_high (c : ascii) : 128 <= b2z c -> escapeByte c = [c].
Proof.
  intros H. unfold escapeByte.
  destruct (Ascii.eqb_spec c QUOTE) as [->|_]; [vm_compute in H; congruence|].
  destruct (Ascii.eqb_spec c "\") as [->|_]; [vm_compute in H; congruence|].
  destruct (Z.ltb_spec (b2z c) 32); [lia|reflexivity].
Qed.

Lemma escape_high (pre : bytes) :
  Forall (fun c => 128 <= b2z c) pre -> escape pre = pre.
Proof.
  induction 1 as [|c pre Hc _ IH]; [reflexivity|].
  unfold escape in *. cbn [flat_map]. rewrite IH, escapeByte_high by exact Hc.
  reflexivity.
Qed.

Lemma escape_app (s t : bytes) : escape (s ++ t) = escape s ++ escape t.
Proof. apply flat_map_app. Qed.

Lemma hexDigit_spec (n : Z) :
  0 <= n < 16 ->
  json.isHex (hexDigit n) = true /\ json.hexval (hexDigit n) = n.
Proof.
  intros H.
  assert (exists k, (k < 16)%nat /\ n = Z.of_nat k) as (k & Hk & ->).
  { exists (Z.to_nat n). split; lia. }
  do 16 (destruct k as [|k]; [split; reflexivity|]). lia.
Qed.

Lemma b2z_div16 (c : ascii) : b2z c < 32 -> 0 <= b2z c / 16 < 16.
Proof. pose proof (b2z_range c). intros. Z.div_mod_to_equations. lia. Qed.

Lemma b2z_mod16 (c : ascii) : 0 <= b2z c mod 16 < 16.
Proof. apply Z.mod_pos_bound. lia. Qed.

Lemma escapeByte_cases (c : ascii) :
  (c = QUOTE /\ escapeByte c = ["\"%char; QUOTE])
  \/ (c = "\"%char /\ escapeByte c = ["\"%char; "\"%char])
  \/ (b2z c < 32
      /\ escapeByte c = ["\"%char; "u"%char; "0"%char; "0"%char;
                         hexDigit (b2z c / 16); hexDigit (b2z c mod 16)])
  \/ (c <> QUOTE /\ c <> "\"%char /\ 32 <= b2z c /\ escapeByte c = [c]).
Proof.
  unfold escapeByte.
  destruct (Ascii.eqb_spec c QUOTE) as [->|Hq]; [now left|].
  destruct (Ascii.eqb_spec c "\") as [->|Hb]; [right; now left|].
  destruct (Z.ltb_spec (b2z c) 32) as [Hlt|Hge].
  - right; right; now left.
  - right; right; right. auto.
Qed.

(** The scanner reads an escaped text up to the quote that follows it. *)
Lemma scanString_escape (s rest : bytes) :
  json.scanString (escape s ++ QUOTE :: rest) = Some (escape s, rest).
Proof.
  induction s as [|c s IH]; [reflexivity|].
  unfold escape in *. cbn [flat_map].
  destruct (escapeByte_cases c)
    as [[-> ->]|[[-> ->]|[[Hlt ->]|(Hq & Hb & Hge & ->)]]].
  - cbn [app json.scanString]. cbn [Ascii.eqb Bool.eqb andb orb QUOTE].
    fold QUOTE. rewrite IH. reflexivity.
  - cbn [app json.scanString]. cbn [Ascii.eqb Bool.eqb andb orb QUOTE].
    fold QUOTE. rewrite IH. reflexivity.
  - cbn [app json.scanString]. cbn [Ascii.eqb Bool.eqb andb orb QUOTE].
    fold QUOTE.
    destruct (hexDigit_spec (b2z c / 16)) as [H1 _];
      [now apply b2z_div16|].
    destruct (hexDigit_spec (b2z c mod 16)) as [H2 _];
      [apply b2z_mod16|].
    rewrite H1, H2.
    change (json.isHex "0") with true. cbn [andb].
    rewrite IH. reflexivity.
  - cbn [app json.scanString].
    destruct (Ascii.eqb_spec c QUOTE); [congruence|].
    destruct (Ascii.eqb_spec c "\"); [congruence|].
    destruct (Z.ltb_spec (b2z c) 32); [lia|].
    rewrite IH. reflexivity.
Qed.

Lemma unquote_loop_escape (s : bytes) :
  wellFormed s ->
  forall fuel, (length (escape s) <= fuel)%nat ->
  json.unquote_loop fuel (escape s) = Some s.
Proof.
  induction 1 as [|c s Hc Hs IH|pre r s Hne Hhigh Hdec Henc Hs IH];
    intros fuel Hfuel.
  - destruct fuel; reflexivity.
  - unfold escape in *. cbn [flat_map] in *.
    destruct (escapeByte_cases c)
      as [[-> E]|[[-> E]|[[Hlt E]|(Hq & Hb & Hge & E)]]];
      rewrite E in *; cbn [app length] in Hfuel;
      (destruct fuel as [|fuel]; [lia|]).
    + cbn [app json.unquote_loop]. cbn [Ascii.eqb Bool.eqb andb orb QUOTE].
      fold QUOTE. rewrite IH by lia. reflexivity.
    + cbn [app json.unquote_loop]. cbn [Ascii.eqb Bool.eqb andb orb QUOTE].
      fold QUOTE. rewrite IH by lia. reflexivity.
    + destruct (hexDigit_spec (b2z c / 16)) as [H1 V1];
        [now apply b2z_div16|].
      destruct (hexDigit_spec (b2z c mod 16)) as [H2 V2];
        [apply b2z_mod16|].
      cbn [app json.unquote_loop].
      cbn [Ascii.eqb Bool.eqb andb orb QUOTE]. fold QUOTE.
      unfold json.getu4.
      cbn [Ascii.eqb Bool.eqb andb orb].
      rewrite H1, H2, V1, V2.
      change (json.isHex "0") with true.
      change (json.hexval "0") with 0. cbn [andb].
      replace (((0 * 16 + 0) * 16 + b2z c / 16) * 16 + b2z c mod 16)
        with (b2z c) by (Z.div_mod_to_equations; lia).
      pose proof (b2z_range c) as Rc.
      destruct (Z.ltb_spec (b2z c) 0); [lia|].
      assert (utf16.IsSurrogate (b2z c) = false) as ->.
      { unfold utf16.IsSurrogate, utf16.surr1.
        destruct (Z.leb_spec 55296 (b2z c)); [lia|reflexivity]. }
      cbn [skipn]. rewrite IH by lia.
      unfold utf8.EncodeRune. rewrite Z.mod_small by lia.
      unfold utf8.rune1Max.
      destruct (Z.leb_spec (b2z c) 127); [|lia].
      now rewrite z2b_b2z.
    + cbn [app json.unquote_loop].
      destruct (Ascii.eqb_spec c QUOTE); [congruence|].
      destruct (Ascii.eqb_spec c "\"); [congruence|].
      change (b2z " ") with 32. change utf8.RuneSelf with 128.
      destruct (Z.ltb_spec (b2z c) 32); [lia|].
      destruct (Z.ltb_spec (b2z c) 128); [|lia].
      cbn [orb]. rewrite IH by lia. reflexivity.
  - rewrite escape_app, (escape_high pre Hhigh) in *.
    destruct pre as [|c0 pre']; [congruence|].
    rewrite length_app in Hfuel. cbn [length] in Hfuel.
    destruct fuel as [|fuel]; [lia|].
    inversion Hhigh as [|? ? Hc0 _]; subst.
    cbn [app json.unquote_loop].
    destruct (Ascii.eqb_spec c0 "\") as [->|_];
      [vm_compute in Hc0; congruence|].
    destruct (Ascii.eqb_spec c0 QUOTE) as [->|_];
      [vm_compute in Hc0; congruence|].
    change (b2z " ") with 32. change utf8.RuneSelf with 128.
    destruct (Z.ltb_spec (b2z c0) 32); [lia|].
    destruct (Z.ltb_spec (b2z c0) 128); [lia|].
    cbn [orb].
    change (c0 :: pre' ++ escape s) with ((c0 :: pre') ++ escape s).
    rewrite Hdec. rewrite skipn_app, skipn_all, Nat.sub_diag.
    cbn [skipn app]. rewrite IH by lia. now rewrite Henc.
Qed.

Lemma unquote_escape (s : bytes) :
  utf8.Valid s = true -> json.unquote (escape s) = Some s.
Proof.
  intros H. apply unquote_loop_escape; [now apply Valid_wellFormed|].
  reflexivity.
Qed.

(** ** The parser on the encoder's output *)


Lemma quote_app (s : string) (rest : bytes) :
  quote s ++ rest = QUOTE :: escape (bytes_of_string s) ++ QUOTE :: rest.
Proof. unfold quote. cbn [app]. now rewrite <- app_assoc. Qed.

Lemma parseValue_quote (fuel : nat) (s : string) (rest : bytes) :
  json.parseValue (S fuel) (quote s ++ rest)
  = Some (json.String_ (escape (bytes_of_string s)), rest).
Proof.
  rewrite quote_app. cbn [json.parseValue json.skipSpace].
  change (json.isSpace QUOTE) with false. cbv iota.
  change (Ascii.eqb QUOTE "{") with false.
  change (Ascii.eqb QUOTE "[") with false.
  change (Ascii.eqb QUOTE QUOTE) with true. cbv iota.
  now rewrite scanString_escape.
Qed.

Lemma parseMembers_fields (v : TemplateInfo) (fs : list field) :
  forall fuel rest,
  fs <> [] -> (length fs < fuel)%nat ->
  json.parseMembers fuel
    (join "," (map (fun f => encodeMember f v) fs) ++ "}"%char :: rest)
  = Some (map (memberOf v) fs, rest).
Proof.
  induction fs as [|f fs IH]; intros fuel rest Hne Hfuel; [congruence|].
  destruct fuel as [|[|fuel]]; [simpl in Hfuel; lia | simpl in Hfuel; lia|].
  assert (forall tail,
             json.parseMembers (S (S fuel)) (encodeMember f v ++ tail)
             = match json.skipSpace tail with
               | c :: rest2 =>
                 if Ascii.eqb c "}" then Some ([memberOf v f], rest2)
                 else if Ascii.eqb c "," then
                   match json.parseMembers (S fuel) rest2 with
                   | Some (ms, after2) => Some (memberOf v f :: ms, after2)
                   | None => None
                   end
                 else None
               | [] => None
               end) as Hmember.
  { intros tail. unfold encodeMember. rewrite <- app_assoc.
    rewrite quote_app.
    cbn [json.parseMembers json.skipSpace].
    change (json.isSpace QUOTE) with false. cbv iota.
    change (Ascii.eqb QUOTE QUOTE) with true. cbv iota.
    rewrite scanString_escape.
    cbn [app json.skipSpace]. change (json.isSpace ":") with false.
    cbv iota. change (Ascii.eqb ":" ":") with true. cbv iota.
    rewrite parseValue_quote. reflexivity. }
  destruct fs as [|f2 fs].
  - cbn [map join]. rewrite Hmember. reflexivity.
  - change (join "," (map (fun f => encodeMember f v) (f :: f2 :: fs)))
      with (encodeMember f v
              ++ ","%char :: join "," (map (fun f => encodeMember f v)
                                           (f2 :: fs))).
    rewrite <- app_assoc. rewrite Hmember.
    cbn [app json.skipSpace]. change (json.isSpace ",") with false.
    cbv iota. change (Ascii.eqb "," "}") with false.
    change (Ascii.eqb "," ",") with true. cbv iota.
    rewrite IH; [reflexivity | discriminate | simpl in *; lia].
Qed.

Lemma parseValue_record (v : TemplateInfo) (fuel : nat) (rest : bytes) :
  (9 <= fuel)%nat ->
  json.parseValue fuel (encodeRecord v ++ rest) = Some (objectOf v, rest).
Proof.
  intros Hfuel. destruct fuel as [|fuel]; [lia|].
  unfold encodeRecord. cbn [app]. rewrite <- app_assoc. cbn [app].
  pose proof (parseMembers_fields v fields fuel rest) as H.
  remember (join "," (map (fun f => encodeMember f v) fields)
                 ++ "}"%char :: rest) as body eqn:Hbody.
  assert (exists tl, body = QUOTE :: tl) as [tl Htl].
  { subst body. unfold fields. cbn [map join]. unfold encodeMember at 1.
    unfold quote at 1. cbn [app]. eauto. }
  rewrite Htl in *.
  cbn [json.parseValue json.skipSpace].
  change (json.isSpace "{") with false. cbv iota.
  change (Ascii.eqb "{" "{") with true. cbv iota.
  cbn [json.skipSpace].
  change (json.isSpace QUOTE) with false. cbv iota.
  change (Ascii.eqb QUOTE "}") with false. cbv iota.
  rewrite H; [reflexivity | discriminate | simpl; lia].
Qed.

Lemma parseElements_records (records : list TemplateInfo) :
  forall fuel rest,
  records <> [] -> (length records + 9 < fuel)%nat ->
  json.parseElements fuel
    (join "," (map encodeRecord records) ++ "]"%char :: rest)
  = Some (map objectOf records, rest).
Proof.
  induction records as [|v records IH]; intros fuel rest Hne Hfuel;
    [congruence|].
  destruct fuel as [|fuel]; [lia|]. cbn [length] in Hfuel.
  destruct records as [|v2 records].
  - cbn [map join json.parseElements].
    rewrite parseValue_record by lia.
    cbn [json.skipSpace]. change (json.isSpace "]") with false. cbv iota.
    change (Ascii.eqb "]" "]") with true. reflexivity.
  - change (join "," (map encodeRecord (v :: v2 :: records)))
      with (encodeRecord v
              ++ ","%char :: join "," (map encodeRecord (v2 :: records))).
    rewrite <- app_assoc. cbn [json.parseElements].
    rewrite parseValue_record by lia.
    cbn [app json.skipSpace]. change (json.isSpace ",") with false. cbv iota.
    change (Ascii.eqb "," "]") with false.
    change (Ascii.eqb "," ",") with true. cbv iota.
    rewrite IH; [reflexivity | discriminate | simpl in *; lia].
Qed.

Lemma length_join_ge (sep : ascii) (parts : list bytes) (n : nat) :
  (forall x, In x parts -> (n <= length x)%nat) ->
  (n * length parts <= length (join sep parts))%nat.
Proof.
  induction parts as [|x parts IH]; intros H; [simpl; lia|].
  assert (n <= length x)%nat by (apply H; now left).
  assert (n * length parts <= length (join sep parts))%nat
    by (apply IH; intros y Hy; apply H; now right).
  destruct parts as [|y parts]; [simpl in *; lia|].
  change (join sep (x :: y :: parts)) with (x ++ sep :: join sep (y :: parts)).
  rewrite length_app. cbn [length] in *. lia.
Qed.

Lemma length_encodeRecord (v : TemplateInfo) : (10 <= length (encodeRecord v))%nat.
Proof.
  unfold encodeRecord, fields. cbn [map join]. unfold encodeMember at 1.
  unfold quote at 1. cbn [name bytes_of_string list_ascii_of_string escape
                          flat_map escapeByte app length].
  repeat (rewrite ?length_app; cbn [length]). lia.
Qed.

Lemma parse_encode (records : list TemplateInfo) :
  json.parse (encode records) = Some (json.Array (map objectOf records)).
Proof.
  unfold json.parse.
  destruct records as [|v records].
  - reflexivity.
  - set (rs := v :: records).
    assert (encodeRecord_head :
              exists tl, join "," (map encodeRecord rs) ++ ["]"%char]
                         = "{"%char :: tl).
    { unfold rs. cbn [map]. destruct (map encodeRecord records);
        unfold encodeRecord at 1; cbn [join app]; eauto. }
    destruct encodeRecord_head as [tl Htl].
    assert (length rs + 9 < 2 * length (encode rs) + 1)%nat as Hfuel.
    { unfold encode. cbn [length]. rewrite length_app.
      pose proof (length_join_ge "," (map encodeRecord rs) 10) as H.
      rewrite length_map in H.
      assert (10 * length rs <= length (join "," (map encodeRecord rs)))%nat.
      { apply H. intros x Hx. apply in_map_iff in Hx as (y & <- & _).
        apply length_encodeRecord. }
      assert (1 <= length rs)%nat by (unfold rs; simpl; lia).
      cbn [length]. lia. }
    replace (2 * length (encode rs) + 2)%nat
      with (S (2 * length (encode rs) + 1)) by lia.
    pose proof (parseElements_records rs (2 * length (encode rs) + 1) [])
      as H.
    generalize dependent (2 * length (encode rs) + 1)%nat. intros fuel Hfuel H.
    unfold encode. rewrite Htl in *.
    cbn [json.parseValue json.skipSpace].
    change (json.isSpace "[") with false. cbv iota.
    change (Ascii.eqb "[" "{") with false.
    change (Ascii.eqb "[" "[") with true. cbv iota.
    cbn [json.skipSpace].
    change (json.isSpace "{") with false. cbv iota.
    change (Ascii.eqb "{" "]") with false. cbv iota.
    rewrite H; [reflexivity | discriminate | exact Hfuel].
Qed.

(** ** Storing what the parser read *)

Lemma findField_name (f : field) :
  In f fields ->
  json.unquote (escape (bytes_of_string (name f)))
  = Some (bytes_of_string (name f))
  /\ findField (bytes_of_string (name f)) = Some f.
Proof.
  unfold fields. cbn [In].
  intros [<-|[<-|[<-|[<-|[<-|[<-|[<-|[]]]]]]]]; split; reflexivity.
Qed.

Lemma storeString_valid (f : field) (s : string) (v : TemplateInfo)
      (saved : option json.Error) :
  utf8.ValidString s = true ->
  storeString f (json.String_ (escape (bytes_of_string s))) v saved
  = (set f v s, saved).
Proof.
  intros H. unfold storeString. rewrite unquote_escape by exact H.
  now rewrite string_of_bytes_of_string.
Qed.

Lemma object_member (f : field) (s : string) (rest : list (bytes * json.Value))
      (v : TemplateInfo) (saved : option json.Error) :
  In f fields -> utf8.ValidString s = true ->
  object ((escape (bytes_of_string (name f)),
           json.String_ (escape (bytes_of_string s))) :: rest) v saved
  = object rest (set f v s) saved.
Proof.
  intros Hf Hs. destruct (findField_name f Hf) as [Hu Hfind].
  cbn [object]. unfold unquoted. rewrite Hu, Hfind, storeString_valid by exact Hs.
  reflexivity.
Qed.

Lemma object_members (v : TemplateInfo) (fs : list field) :
  forall v0 saved,
  (forall f, In f fs -> In f fields) ->
  forallb (fun f => utf8.ValidString (get f v)) fs = true ->
  object (map (memberOf v) fs) v0 saved
  = (fold_left (fun acc f => set f acc (get f v)) fs v0, saved).
Proof.
  induction fs as [|f fs IH]; intros v0 saved Hin Hvalid; [reflexivity|].
  cbn [forallb] in Hvalid. apply andb_prop in Hvalid as [Hf Hvalid].
  cbn [map fold_left]. unfold memberOf at 1.
  rewrite object_member; [|apply Hin; now left|exact Hf].
  apply IH; [|exact Hvalid]. intros f' Hf'. apply Hin. now right.
Qed.

Lemma object_objectOf (v : TemplateInfo) :
  validRecord v = true ->
  object (map (memberOf v) fields) zeroTemplateInfo None = (v, None).
Proof.
  intros H. rewrite object_members; [|auto|exact H].
  destruct v. reflexivity.
Qed.

Lemma array_objectOf (records : list TemplateInfo) :
  forallb validRecord records = true ->
  array (map objectOf records) None = (records, None).
Proof.
  induction records as [|v records IH]; intros H; [reflexivity|].
  cbn [forallb] in H. apply andb_prop in H as [Hv H].
  cbn [map array]. unfold objectOf at 1. cbn [element].
  rewrite object_objectOf by exact Hv. rewrite IH by exact H. reflexivity.
Qed.

Lemma Unmarshal_encode (records : list TemplateInfo) :
  forallb validRecord records = true ->
  Unmarshal (encode records) [] = (records, None).
Proof.
  intros H. unfold Unmarshal. rewrite parse_encode.
  now apply array_objectOf.
Qed.

(** ** Decoding *)


Lemma findField_In (key : bytes) (f : field) :
  findField key = Some f -> In f fields.
Proof.
  unfold findField. intros H.
  destruct (find (keyIs key) fields) as [f0|] eqn:E.
  - injection H as <-. now apply find_some in E.
  - now apply find_some in H.
Qed.





Lemma getTemplateInfo_decode (jsonError : json.Error -> string) (w : World)
      (g : Flags) (repository : string) (data : bytes) :
  answers w repository (responseOf StatusOK data) ->
  getTemplateInfo jsonError w g repository
  = match Unmarshal data [] with
    | (_, Some unmarshallErr) =>
      ([], Errorf ("error while unmarshalling into templates struct: "
                   ++ jsonError unmarshallErr))
    | (templatesInfo, None) => (templatesInfo, None)
    end.
Proof.
  intros [Hreq Hdo]. unfold getTemplateInfo. now rewrite Hreq, Hdo.
Qed.





(** ** The bounds on recursion are never reached *)

Lemma maxCells_le (ls : list (list tabwriter.cell)) (n : nat) :
  (forall l, In l ls -> (length l <= n)%nat) ->
  (tabwriter.maxCells ls <= n)%nat.
Proof.
  induction ls as [|l ls IH]; intros H; simpl; [lia|].
  assert (length l <= n)%nat by (apply H; now left).
  assert (tabwriter.maxCells ls <= n)%nat
    by (apply IH; intros l' Hl'; apply H; now right).
  lia.
Qed.

Lemma formatLoop_ext b F F' widths ls : forall blk,
  (forall blk', (forall l, In l blk' -> In l (blk ++ ls)) -> F blk' = F' blk') ->
  tabwriter.formatLoop b F widths blk ls
  = tabwriter.formatLoop b F' widths blk ls.
Proof.
  induction ls as [|l ls IH]; intros blk H.
  - cbn [tabwriter.formatLoop]. destruct blk; [reflexivity|].
    apply H. intros l' Hl'. now rewrite app_nil_r.
  - cbn [tabwriter.formatLoop].
    destruct (tabwriter.lacksColumn (length widths) l).
    + f_equal.
      * destruct blk; [reflexivity|]. apply H. intros l' Hl'.
        apply in_or_app. now left.
      * f_equal. apply IH. intros blk' Hblk'. apply H. intros l' Hl'.
        apply in_or_app. right. right. exact (Hblk' l' Hl').
    + apply IH. intros blk' Hblk'. apply H. intros l' Hl'.
      specialize (Hblk' l' Hl'). rewrite <- app_assoc in Hblk'. exact Hblk'.
Qed.

Lemma format_no_column b fuel widths ls :
  (tabwriter.maxCells ls <= length widths)%nat ->
  tabwriter.format fuel b widths ls = map (tabwriter.writeCells b widths) ls.
Proof.
  intros H. destruct fuel as [|fuel]; [reflexivity|].
  cbn [tabwriter.format]. apply formatLoop_lack.
  intros l Hl. pose proof (maxCells_ge ls l Hl).
  unfold tabwriter.lacksColumn. apply Z.geb_le. lia.
Qed.

(** [format] does not depend on its fuel once the fuel covers the columns
    to the right of the widths already fixed. *)
Lemma format_fuel b (fuel : nat) : forall fuel' widths ls,
  (tabwriter.maxCells ls <= length widths + fuel)%nat ->
  (tabwriter.maxCells ls <= length widths + fuel')%nat ->
  tabwriter.format fuel b widths ls = tabwriter.format fuel' b widths ls.
Proof.
  induction fuel as [|fuel IH]; intros fuel' widths ls H H'.
  - rewrite !format_no_column by lia. reflexivity.
  - destruct fuel' as [|fuel'].
    + rewrite !format_no_column by lia. reflexivity.
    + cbn [tabwriter.format]. apply formatLoop_ext.
      intros blk Hblk. apply IH.
      * rewrite length_app. cbn [length].
        assert (tabwriter.maxCells blk <= tabwriter.maxCells ls)%nat.
        { apply maxCells_le. intros l Hl. apply maxCells_ge.
          exact (Hblk l Hl). }
        lia.
      * rewrite length_app. cbn [length].
        assert (tabwriter.maxCells blk <= tabwriter.maxCells ls)%nat.
        { apply maxCells_le. intros l Hl. apply maxCells_ge.
          exact (Hblk l Hl). }
        lia.
Qed.

Lemma format_enough_fuel b (fuel : nat) (ls : list (list tabwriter.cell)) :
  (tabwriter.maxCells ls < fuel)%nat ->
  tabwriter.format fuel b [] ls
  = tabwriter.format (S (tabwriter.maxCells ls)) b [] ls.
Proof. intros H. apply format_fuel; simpl; lia. Qed.

Lemma leadKind_size (x s : Z) :
  leadKind x s -> (2 <= Z.to_nat (Z.land s 7) <= 4)%nat.
Proof. intros H. destruct H; cbn; lia. Qed.

Lemma runeCountStep_pos (p : bytes) : (1 <= utf8.runeCountStep p)%nat.
Proof.
  unfold utf8.runeCountStep. change utf8.RuneSelf with 128.
  destruct (Z.ltb_spec (utf8.at_ p 0) 128) as [|Hge]; [lia|].
  destruct (Z.eqb_spec (utf8.first (utf8.at_ p 0)) utf8.xx) as [|Hxx]; [lia|].
  destruct (first_cases (utf8.at_ p 0)) as [|Hlead]; [|congruence|].
  { unfold utf8.at_. pose proof (b2z_range (nth 0 p zero)). unfold utf8.at_ in Hge. lia. }
  apply leadKind_size in Hlead.
  destruct (_ <? _)%nat; [lia|].
  destruct (_ || _); [lia|].
  destruct (_ =? 2)%nat; [lia|].
  destruct (_ || _); [lia|].
  destruct (_ =? 3)%nat; [lia|].
  destruct (_ || _); lia.
Qed.

(** [RuneCount] does not depend on the fuel of its loop once the fuel
    covers the bytes. *)
Lemma RuneCount_loop_fuel (fuel : nat) : forall fuel' p n,
  (length p <= fuel)%nat -> (length p <= fuel')%nat ->
  utf8.RuneCount_loop fuel p n = utf8.RuneCount_loop fuel' p n.
Proof.
  induction fuel as [|fuel IH]; intros fuel' p n H H'.
  - destruct p; [|simpl in H; lia]. destruct fuel'; reflexivity.
  - destruct p as [|c p]; [destruct fuel'; reflexivity|].
    destruct fuel' as [|fuel']; [simpl in H'; lia|].
    cbn [utf8.RuneCount_loop].
    pose proof (runeCountStep_pos (c :: p)) as Hpos.
    assert (length (skipn (utf8.runeCountStep (c :: p)) (c :: p))
            <= length p)%nat.
    { rewrite length_skipn. cbn [length]. lia. }
    cbn [length] in *. apply IH; lia.
Qed.

Lemma skipSpace_length (s : bytes) :
  (length (json.skipSpace s) <= length s)%nat.
Proof.
  induction s as [|c s IH]; [simpl; lia|].
  cbn [json.skipSpace]. destruct (json.isSpace c); cbn [length]; lia.
Qed.

Lemma skipSpace_cons (s rest : bytes) (c : ascii) :
  json.skipSpace s = c :: rest -> (length rest < length s)%nat.
Proof.
  intros H. pose proof (skipSpace_length s) as L. rewrite H in L.
  cbn [length] in L. lia.
Qed.

Lemma scanString_length_aux (n : nat) : forall s lit after,
  (length s <= n)%nat ->
  json.scanString s = Some (lit, after) -> (length after < length s)%nat.
Proof.
  induction n as [|n IH]; intros s lit after Hn H.
  - destruct s; [discriminate H | simpl in Hn; lia].
  - destruct s as [|c s]; [discriminate H|].
    cbn [json.scanString] in H. cbn [length] in Hn.
    destruct (Ascii.eqb c QUOTE).
    { injection H as _ <-. cbn [length]. lia. }
    destruct (Ascii.eqb c "\").
    + destruct s as [|e s]; [discriminate H|].
      destruct (_ || _).
      * destruct (json.scanString s) as [[lit' after']|] eqn:E;
          [|discriminate H].
        injection H as _ <-. apply IH in E; cbn [length] in *; lia.
      * destruct (Ascii.eqb e "u"); [|discriminate H].
        destruct s as [|h1 [|h2 [|h3 [|h4 s]]]]; try discriminate H.
        destruct (_ && _); [|discriminate H].
        destruct (json.scanString s) as [[lit' after']|] eqn:E;
          [|discriminate H].
        injection H as _ <-. apply IH in E; cbn [length] in *; lia.
    + destruct (_ <? _); [discriminate H|].
      destruct (json.scanString s) as [[lit' after']|] eqn:E;
        [|discriminate H].
      injection H as _ <-. apply IH in E; cbn [length] in *; lia.
Qed.

Lemma scanString_length (s : bytes) : forall lit after,
  json.scanString s = Some (lit, after) -> (length after < length s)%nat.
Proof. intros lit after. now apply (scanString_length_aux (length s)). Qed.

Lemma scanDigits_length (s : bytes) :
  (length (snd (json.scanDigits s)) <= length s)%nat.
Proof.
  induction s as [|c s IH]; [simpl; lia|].
  cbn [json.scanDigits]. destruct (json.isDigit c); [|simpl; lia].
  destruct (json.scanDigits s). cbn [snd length] in *. lia.
Qed.

Lemma scanExponent_length (s : bytes) : forall lit after,
  json.scanExponent s = Some (lit, after) -> (length after <= length s)%nat.
Proof.
  intros lit after H. unfold json.scanExponent in H.
  destruct s as [|e s]; [injection H as _ <-; lia|].
  destruct (_ || _); [|injection H as _ <-; lia].
  assert (forall rest1 sign,
             (length rest1 <= length s)%nat ->
             match json.scanDigits rest1 with
             | ([], _) => None
             | (ds, after) => Some (e :: sign ++ ds, after)
             end = Some (lit, after) ->
             (length after <= length (e :: s))%nat) as Haux.
  { intros rest1 sign Hlen Hd. pose proof (scanDigits_length rest1) as L.
    destruct (json.scanDigits rest1) as [[|d ds] after']; [discriminate Hd|].
    injection Hd as _ <-. cbn [snd length] in *. lia. }
  destruct s as [|c s'].
  - apply (Haux [] []); [simpl; lia | exact H].
  - destruct (_ || _).
    + apply (Haux s' [c]); [simpl; lia | exact H].
    + apply (Haux (c :: s') []); [simpl; lia | exact H].
Qed.

Lemma scanFraction_length (s : bytes) : forall lit after,
  json.scanFraction s = Some (lit, after) -> (length after <= length s)%nat.
Proof.
  intros lit after H. unfold json.scanFraction in H.
  destruct s as [|d s]; [injection H as _ <-; lia|].
  destruct (Ascii.eqb d ".").
  - pose proof (scanDigits_length s) as L.
    destruct (json.scanDigits s) as [[|d1 ds] after1]; [discriminate H|].
    destruct (json.scanExponent after1) as [[ex after2]|] eqn:E;
      [|discriminate H].
    injection H as _ <-. apply scanExponent_length in E.
    cbn [snd length] in *. lia.
  - now apply scanExponent_length in H.
Qed.

Lemma scanInt_length (s : bytes) : forall lit after,
  json.scanInt s = Some (lit, after) -> (length after < length s)%nat.
Proof.
  intros lit after H. unfold json.scanInt in H.
  destruct s as [|c s]; [discriminate H|].
  destruct (Ascii.eqb c "0").
  - destruct (json.scanFraction s) as [[fr after1]|] eqn:E;
      [|discriminate H].
    injection H as _ <-. apply scanFraction_length in E.
    cbn [length]. lia.
  - destruct (json.isDigit c); [|discriminate H].
    pose proof (scanDigits_length s) as L.
    destruct (json.scanDigits s) as [ds rest1].
    destruct (json.scanFraction rest1) as [[fr after1]|] eqn:E;
      [|discriminate H].
    injection H as _ <-. apply scanFraction_length in E.
    cbn [snd length] in *. lia.
Qed.

Lemma scanNumber_length (s : bytes) : forall lit after,
  json.scanNumber s = Some (lit, after) -> (length after < length s)%nat.
Proof.
  intros lit after H. unfold json.scanNumber in H.
  destruct s as [|c s]; [discriminate H|].
  destruct (Ascii.eqb c "-").
  - destruct (json.scanInt s) as [[lit' after']|] eqn:E; [|discriminate H].
    injection H as _ <-. apply scanInt_length in E. cbn [length]. lia.
  - now apply scanInt_length in H.
Qed.

Lemma stripPrefix_length (lit : bytes) : forall s after,
  json.stripPrefix lit s = Some after -> (length after <= length s)%nat.
Proof.
  induction lit as [|a lit IH]; intros s after H.
  - injection H as <-. lia.
  - destruct s as [|c s]; [discriminate H|]. cbn [json.stripPrefix] in H.
    destruct (Ascii.eqb a c); [|discriminate H].
    apply IH in H. cbn [length]. lia.
Qed.

Ltac scrutinise H :=
  repeat match type of H with
         | match ?x with _ => _ end = _ => destruct x eqn:?; try discriminate H
         end.

Ltac consumed :=
  repeat match goal with
         | E : json.skipSpace _ = _ :: _ |- _ => apply skipSpace_cons in E
         | E : json.scanString _ = Some _ |- _ => apply scanString_length in E
         | E : json.scanNumber _ = Some _ |- _ => apply scanNumber_length in E
         | E : json.stripPrefix _ _ = Some _ |- _ =>
           apply stripPrefix_length in E
         end.

(** Every parsing function consumes at least one byte. *)
Lemma parse_length (fuel : nat) :
  (forall s v after,
      json.parseValue fuel s = Some (v, after) ->
      (length after < length s)%nat)
  /\ (forall s vs after,
         json.parseElements fuel s = Some (vs, after) ->
         (length after < length s)%nat)
  /\ (forall s ms after,
         json.parseMembers fuel s = Some (ms, after) ->
         (length after < length s)%nat).
Proof.
  induction fuel as [|fuel (IHv & IHe & IHm)].
  - repeat split; intros; discriminate.
  - split; [|split].
    + intros s v after H. cbn [json.parseValue] in H. scrutinise H;
        injection H as _ <-; consumed;
        repeat match goal with
               | E : json.parseMembers fuel _ = Some _ |- _ => apply IHm in E
               | E : json.parseElements fuel _ = Some _ |- _ => apply IHe in E
               end; cbn [length] in *; lia.
    + intros s vs after H. cbn [json.parseElements] in H. scrutinise H;
        injection H as _ <-; consumed;
        repeat match goal with
               | E : json.parseValue fuel _ = Some _ |- _ => apply IHv in E
               | E : json.parseElements fuel _ = Some _ |- _ => apply IHe in E
               end; cbn [length] in *; lia.
    + intros s ms after H. cbn [json.parseMembers] in H. scrutinise H;
        injection H as _ <-; consumed;
        repeat match goal with
               | E : json.parseValue fuel _ = Some _ |- _ => apply IHv in E
               | E : json.parseMembers fuel _ = Some _ |- _ => apply IHm in E
               end; cbn [length] in *; lia.
Qed.

Ltac same_scrutinee :=
  match goal with
  | |- match ?x with _ => _ end = _ =>
    lazymatch x with
    | json.parseValue _ _ => fail
    | json.parseElements _ _ => fail
    | json.parseMembers _ _ => fail
    | _ => destruct x eqn:?
    end
  end.

(** With at least two levels of recursion per byte, the result does not
    depend on the number of levels. *)
Lemma parse_fuel (fuel : nat) : forall fuel',
  (forall s, (2 * length s + 1 <= fuel)%nat ->
             (2 * length s + 1 <= fuel')%nat ->
             json.parseValue fuel s = json.parseValue fuel' s)
  /\ (forall s, (2 * length s + 2 <= fuel)%nat ->
                (2 * length s + 2 <= fuel')%nat ->
                json.parseElements fuel s = json.parseElements fuel' s)
  /\ (forall s, (2 * length s + 2 <= fuel)%nat ->
                (2 * length s + 2 <= fuel')%nat ->
                json.parseMembers fuel s = json.parseMembers fuel' s).
Proof.
  induction fuel as [|fuel IH]; intros fuel'.
  - repeat split; intros s H; lia.
  - destruct fuel' as [|fuel']; [repeat split; intros s H H'; lia|].
    destruct (IH fuel') as (IHv & IHe & IHm).
    destruct (parse_length fuel') as (Lv & Le & Lm).
    split; [|split].
    + intros s H H'. cbn [json.parseValue].
      repeat (same_scrutinee; try reflexivity); consumed.
      * rewrite IHm; [reflexivity | cbn [length] in *; lia ..].
      * rewrite IHe; [reflexivity | cbn [length] in *; lia ..].
    + intros s H H'. cbn [json.parseElements].
      rewrite IHv by lia.
      destruct (json.parseValue fuel' s) as [[v after]|] eqn:Ev;
        [|reflexivity].
      apply Lv in Ev.
      repeat (same_scrutinee; try reflexivity); consumed.
      rewrite IHe; [reflexivity | cbn [length] in *; lia ..].
    + intros s H H'. cbn [json.parseMembers].
      repeat (same_scrutinee; try reflexivity); consumed.
      rewrite IHv by (cbn [length] in *; lia).
      match goal with
      | |- match json.parseValue fuel' ?x with _ => _ end = _ =>
        destruct (json.parseValue fuel' x) as [[v after]|] eqn:Ev;
          [|reflexivity]
      end.
      apply Lv in Ev.
      repeat (same_scrutinee; try reflexivity); consumed.
      rewrite IHm; [reflexivity | cbn [length] in *; lia ..].
Qed.

(** [parse] gives its parser enough levels of recursion: more levels
    give the same result. *)
Lemma parseValue_enough_fuel (data : bytes) (fuel : nat) :
  (2 * length data + 2 <= fuel)%nat ->
  json.parseValue fuel data = json.parseValue (2 * length data + 2) data.
Proof.
  intros H. apply (proj1 (parse_fuel fuel (2 * length data + 2))); lia.
Qed.

Lemma DecodeRune_size (c : ascii) (p : bytes) :
  (1 <= snd (utf8.DecodeRune (c :: p)) <= 4)%nat.
Proof.
  unfold utf8.DecodeRune.
  repeat match goal with
         | |- context [if ?x then _ else _] => destruct x
         end; cbn [snd]; lia.
Qed.

Ltac same_test :=
  match goal with
  | |- (if ?x then _ else _) = _ => destruct x eqn:?
  | |- match ?x with _ => _ end = _ =>
    lazymatch x with
    | json.unquote_loop _ _ => fail
    | _ => destruct x eqn:?
    end
  end.

(** [unquote] gives its loop enough iterations. *)
Lemma unquote_loop_fuel (fuel : nat) : forall fuel' s,
  (length s <= fuel)%nat -> (length s <= fuel')%nat ->
  json.unquote_loop fuel s = json.unquote_loop fuel' s.
Proof.
  induction fuel as [|fuel IH]; intros fuel' s H H'.
  - destruct s; [|simpl in H; lia]. destruct fuel'; reflexivity.
  - destruct s as [|c s]; [destruct fuel'; reflexivity|].
    destruct fuel' as [|fuel']; [simpl in H'; lia|].
    cbn [length] in H, H'. cbn [json.unquote_loop].
    destruct (Ascii.eqb c "\").
    + destruct s as [|e s]; [reflexivity|]. cbn [length] in H, H'.
      rewrite (IH fuel' s) by lia.
      repeat (same_test; try reflexivity).
      all: match goal with
           | |- match json.unquote_loop _ ?x with _ => _ end = _ =>
             rewrite (IH fuel' x); [reflexivity | |]
           end.
      all: repeat match goal with
                  | E : (_, _) = (_, _) |- _ => injection E as <- <-
                  | E : (if ?x then _ else _) = (_, _) |- _ => destruct x
                  end.
      all: repeat match goal with
                  | |- context [match ?l with [] => _ | _ :: _ => _ end] =>
                    is_var l; destruct l
                  end; cbn [length] in *; lia.
    + destruct (_ || _); [reflexivity|].
      destruct (_ <? _).
      * rewrite (IH fuel' s) by lia. reflexivity.
      * pose proof (DecodeRune_size c s) as Hsize.
        destruct (utf8.DecodeRune (c :: s)) as [rr size]. cbn [snd] in Hsize.
        rewrite (IH fuel' (skipn size (c :: s))); [reflexivity | |];
          rewrite length_skipn; cbn [length]; lia.
Qed.

(** [keyFolds] gives [equalFold] enough iterations. *)
Lemma equalFold_fuel (fuel : nat) : forall fuel' s t,
  (length t <= fuel)%nat -> (length t <= fuel')%nat ->
  json.equalFold fuel s t = json.equalFold fuel' s t.
Proof.
  induction fuel as [|fuel IH]; intros fuel' s t H H'.
  - destruct t; [|simpl in H; lia].
    destruct s, fuel'; reflexivity.
  - destruct s as [|sb s]; [destruct fuel'; reflexivity|].
    destruct t as [|tb t]; [destruct fuel'; reflexivity|].
    destruct fuel' as [|fuel']; [simpl in H'; lia|].
    cbn [json.equalFold length] in *.
    destruct (_ <? _).
    + destruct (Ascii.eqb sb tb); [apply IH; lia|].
      destruct (_ && _); [|reflexivity].
      destruct (_ =? _); [apply IH; lia | reflexivity].
    + pose proof (DecodeRune_size tb t) as Hsize.
      destruct (utf8.DecodeRune (tb :: t)) as [tr size]. cbn [snd] in Hsize.
      destruct (_ || _); [|reflexivity].
      apply IH; rewrite length_skipn; cbn [length]; lia.
Qed.

(** ** What the decoder stores is valid UTF-8 *)

Lemma rune2_range (x0 x1 : Z) :
  0 <= Z.lor (Z.shiftl (Z.land x0 utf8.mask2) 6) (Z.land x1 utf8.maskx)
  < 2 ^ 21.
Proof.
  rewrite land_mask2, land_maskx.
  pose proof (Z.mod_pos_bound x0 32). pose proof (Z.mod_pos_bound x1 64).
  rewrite lor_shiftl_small; lia.
Qed.

Lemma rune3_range (x0 x1 x2 : Z) :
  0 <= Z.lor (Z.lor (Z.shiftl (Z.land x0 utf8.mask3) 12)
                    (Z.shiftl (Z.land x1 utf8.maskx) 6))
             (Z.land x2 utf8.maskx)
  < 2 ^ 21.
Proof.
  rewrite land_mask3, !land_maskx.
  pose proof (Z.mod_pos_bound x0 16). pose proof (Z.mod_pos_bound x1 64).
  pose proof (Z.mod_pos_bound x2 64).
  rewrite (Z.shiftl_mul_pow2 (x1 mod 64)) by lia.
  rewrite (lor_shiftl_small (x0 mod 16)) by lia.
  replace (x0 mod 16 * 2 ^ 12 + x1 mod 64 * 2 ^ 6)
    with (Z.shiftl (x0 mod 16 * 64 + x1 mod 64) 6)
    by (rewrite Z.shiftl_mul_pow2 by lia; lia).
  rewrite lor_shiftl_small; lia.
Qed.

Lemma rune4_range (x0 x1 x2 x3 : Z) :
  0 <= Z.lor (Z.lor (Z.lor (Z.shiftl (Z.land x0 utf8.mask4) 18)
                           (Z.shiftl (Z.land x1 utf8.maskx) 12))
                    (Z.shiftl (Z.land x2 utf8.maskx) 6))
             (Z.land x3 utf8.maskx)
  < 2 ^ 21.
Proof.
  rewrite land_mask4, !land_maskx.
  pose proof (Z.mod_pos_bound x0 8). pose proof (Z.mod_pos_bound x1 64).
  pose proof (Z.mod_pos_bound x2 64). pose proof (Z.mod_pos_bound x3 64).
  rewrite (Z.shiftl_mul_pow2 (x1 mod 64)) by lia.
  rewrite (lor_shiftl_small (x0 mod 8)) by lia.
  rewrite (Z.shiftl_mul_pow2 (x2 mod 64)) by lia.
  replace (x0 mod 8 * 2 ^ 18 + x1 mod 64 * 2 ^ 12)
    with (Z.shiftl (x0 mod 8 * 64 + x1 mod 64) 12)
    by (rewrite Z.shiftl_mul_pow2 by lia; lia).
  rewrite lor_shiftl_small by lia.
  replace ((x0 mod 8 * 64 + x1 mod 64) * 2 ^ 12 + x2 mod 64 * 2 ^ 6)
    with (Z.shiftl ((x0 mod 8 * 64 + x1 mod 64) * 64 + x2 mod 64) 6)
    by (rewrite Z.shiftl_mul_pow2 by lia; lia).
  rewrite lor_shiftl_small; lia.
Qed.

Lemma DecodeRune_range (p : bytes) :
  0 <= fst (utf8.DecodeRune p) < 2 ^ 21.
Proof.
  unfold utf8.DecodeRune. destruct p as [|c0 p]; [cbn [fst]; unfold utf8.RuneError; lia|].
  pose proof (b2z_range c0).
  repeat match goal with
         | |- context [if ?x then _ else _] => destruct x
         end; cbn [fst];
    try apply rune2_range; try apply rune3_range; try apply rune4_range;
    unfold utf8.RuneError; lia.
Qed.

Lemma validStep_lead (c0 : ascii) (p : bytes) (s lo hi : Z) (size : nat) :
  s = utf8.first (b2z c0) ->
  (s =? utf8.xx) = false ->
  Z.to_nat (Z.land s 7) = size ->
  utf8.acceptRanges (Z.shiftr s 4) = (lo, hi) ->
  128 <= b2z c0 ->
  (2 <= size <= 4)%nat -> (size <= S (length p))%nat ->
  lo <= utf8.at_ p 0 <= hi ->
  ((3 <= size)%nat -> 128 <= utf8.at_ p 1 <= 191) ->
  ((4 <= size)%nat -> 128 <= utf8.at_ p 2 <= 191) ->
  utf8.validStep (c0 :: p) = Some size.
Proof.
  intros E Hxx Hsz Hacc H0 Hsize Hlen H1 H2 H3.
  unfold utf8.validStep. cbv zeta.
  change (utf8.at_ (c0 :: p) 0) with (b2z c0).
  change utf8.RuneSelf with 128.
  destruct (Z.ltb_spec (b2z c0) 128); [lia|].
  rewrite <- E, Hxx, Hsz, Hacc. cbn [fst snd].
  change utf8.locb with 128. change utf8.hicb with 191.
  destruct (Nat.ltb_spec (length (c0 :: p)) size); [cbn [length] in *; lia|].
  change (utf8.at_ (c0 :: p) 1) with (utf8.at_ p 0).
  change (utf8.at_ (c0 :: p) 2) with (utf8.at_ p 1).
  change (utf8.at_ (c0 :: p) 3) with (utf8.at_ p 2).
  destruct (Z.ltb_spec (utf8.at_ p 0) lo); [lia|].
  destruct (Z.ltb_spec hi (utf8.at_ p 0)); [lia|]. cbn [orb].
  destruct (Nat.eqb_spec size 2); [reflexivity|].
  destruct (Z.ltb_spec (utf8.at_ p 1) 128); [lia|].
  destruct (Z.ltb_spec 191 (utf8.at_ p 1)); [lia|]. cbn [orb].
  destruct (Nat.eqb_spec size 3); [reflexivity|].
  destruct (Z.ltb_spec (utf8.at_ p 2) 128); [lia|].
  destruct (Z.ltb_spec 191 (utf8.at_ p 2)); [lia|]. reflexivity.
Qed.

Lemma first_lead (x : Z) :
  128 <= x < 256 -> utf8.first x <> utf8.xx ->
  leadKind x (utf8.first x).
Proof.
  intros H Hxx. destruct (first_cases x H); [congruence | assumption].
Qed.

Ltac dm := Z.div_mod_to_equations; lia.

(** The bytes [EncodeRune] stores for a rune are one valid rune. *)
Lemma EncodeRune_valid (r : Z) (t : bytes) :
  0 <= r < 2 ^ 32 ->
  utf8.EncodeRune r <> []
  /\ utf8.validStep (utf8.EncodeRune r ++ t)
     = Some (length (utf8.EncodeRune r)).
Proof.
  intros Hr.
  assert (Hfix : utf8.EncodeRune 65533
                 = [z2b 239; z2b 191; z2b 189]) by reflexivity.
  assert (Hsurr : (1114111 < r \/ 55296 <= r <= 57343) ->
                  utf8.EncodeRune r = utf8.EncodeRune 65533).
  { intros H. unfold utf8.EncodeRune at 1. rewrite Z.mod_small by lia.
    change utf8.rune1Max with 127. change utf8.rune2Max with 2047.
    change utf8.MaxRune with 1114111.
    change utf8.surrogateMin with 55296. change utf8.surrogateMax with 57343.
    destruct (Z.leb_spec r 127); [lia|].
    destruct (Z.leb_spec r 2047); [lia|].
    destruct (Z.ltb_spec 1114111 r); [reflexivity|].
    destruct (Z.leb_spec 55296 r); [|lia].
    destruct (Z.leb_spec r 57343); [reflexivity|lia]. }
  destruct (Z.leb_spec r 127) as [H1|H1].
  { unfold utf8.EncodeRune. rewrite Z.mod_small by lia.
    change utf8.rune1Max with 127.
    destruct (Z.leb_spec r 127); [|lia].
    split; [discriminate|]. cbn [app length].
    unfold utf8.validStep, utf8.at_. cbn [nth].
    rewrite b2z_z2b by lia. change utf8.RuneSelf with 128.
    destruct (Z.ltb_spec r 128); [reflexivity|lia]. }
  destruct (Z.leb_spec r 2047) as [H2|H2].
  { rewrite encode2 by lia. split; [discriminate|]. cbn [app length].
    assert (192 + r / 64 = 194 + (r / 64 - 2)) as E0 by lia.
    apply (validStep_lead _ _ utf8.s1 128 191); unfold utf8.at_; cbn [nth];
      rewrite ?b2z_z2b by dm; try reflexivity; try (cbn [length]; lia);
      try dm.
    unfold utf8.first.
    repeat match goal with
           | |- context [?a <? ?b] => destruct (Z.ltb_spec a b); try dm
           end; reflexivity. }
  destruct (Z.ltb_spec 1114111 r) as [H3|H3].
  { rewrite Hsurr by lia. rewrite Hfix. split; [discriminate|]. reflexivity. }
  assert (55296 <= r <= 57343 \/ ~ 55296 <= r <= 57343) as [H4|H4] by lia.
  { rewrite Hsurr by lia. rewrite Hfix. split; [discriminate|]. reflexivity. }
  destruct (Z.leb_spec r 65535) as [H5|H5].
  - (* three bytes *)
    rewrite encode3 by lia. split; [discriminate|]. cbn [app length].
    assert (r / 4096 = 0 \/ r / 4096 = 13
            \/ (1 <= r / 4096 < 16 /\ r / 4096 <> 13)) as [E|[E|E]] by dm.
    + apply (validStep_lead _ _ utf8.s2 160 191); unfold utf8.at_;
        cbn [nth]; rewrite ?b2z_z2b by dm; try reflexivity;
        try (cbn [length]; lia); try dm.
      rewrite E. reflexivity.
    + apply (validStep_lead _ _ utf8.s4 128 159); unfold utf8.at_;
        cbn [nth]; rewrite ?b2z_z2b by dm; try reflexivity;
        try (cbn [length]; lia); try dm.
      rewrite E. reflexivity.
    + apply (validStep_lead _ _ utf8.s3 128 191); unfold utf8.at_;
        cbn [nth]; rewrite ?b2z_z2b by dm; try reflexivity;
        try (cbn [length]; lia); try dm.
      unfold utf8.first.
      repeat match goal with
             | |- context [?a <? ?b] => destruct (Z.ltb_spec a b); try lia
             | |- context [?a =? ?b] => destruct (Z.eqb_spec a b); try lia
             end; reflexivity.
  - (* four bytes *)
    rewrite encode4 by lia. split; [discriminate|]. cbn [app length].
    assert (r / 262144 = 0 \/ r / 262144 = 4 \/ 1 <= r / 262144 < 4)
      as [E|[E|E]] by dm.
    + apply (validStep_lead _ _ utf8.s5 144 191); unfold utf8.at_;
        cbn [nth]; rewrite ?b2z_z2b by dm; try reflexivity;
        try (cbn [length]; lia); try dm.
      rewrite E. reflexivity.
    + apply (validStep_lead _ _ utf8.s7 128 143); unfold utf8.at_;
        cbn [nth]; rewrite ?b2z_z2b by dm; try reflexivity;
        try (cbn [length]; lia); try dm.
      rewrite E. reflexivity.
    + apply (validStep_lead _ _ utf8.s6 128 191); unfold utf8.at_;
        cbn [nth]; rewrite ?b2z_z2b by dm; try reflexivity;
        try (cbn [length]; lia); try dm.
      unfold utf8.first.
      repeat match goal with
             | |- context [?a <? ?b] => destruct (Z.ltb_spec a b); try lia
             | |- context [?a =? ?b] => destruct (Z.eqb_spec a b); try lia
             end; reflexivity.
Qed.

Lemma validStep_bounds (c : ascii) (p : bytes) (size : nat) :
  utf8.validStep (c :: p) = Some size -> (1 <= size <= S (length p))%nat.
Proof.
  intros H. destruct (Z.ltb_spec (b2z c) 128) as [Hlt|Hge].
  - unfold utf8.validStep in H. cbv zeta in H.
    change (utf8.at_ (c :: p) 0) with (b2z c) in H.
    change utf8.RuneSelf with 128 in H.
    destruct (Z.ltb_spec (b2z c) 128); [|lia]. injection H as <-. lia.
  - destruct (valid_rune (c :: p) size) as (pre & r & Hlen & Hrune);
      [exact Hge | exact H |].
    destruct Hrune as ((post & Hpost) & _ & Hdec & _).
    assert (length (c :: p) = length pre + length post)%nat as L
        by (rewrite Hpost; apply length_app).
    cbn [length] in L. split; [|lia].
    destruct pre as [|c0 pre]; [|cbn [length] in Hlen; lia].
    specialize (Hdec ["a"%char]). vm_compute in Hdec. discriminate Hdec.
Qed.

(** [Valid] gives its loop enough iterations. *)
Lemma Valid_loop_fuel (fuel : nat) : forall fuel' p,
  (length p <= fuel)%nat -> (length p <= fuel')%nat ->
  utf8.Valid_loop fuel p = utf8.Valid_loop fuel' p.
Proof.
  induction fuel as [|fuel IH]; intros fuel' p H H'.
  - destruct p; [|simpl in H; lia]. destruct fuel'; reflexivity.
  - destruct p as [|c p]; [destruct fuel'; reflexivity|].
    destruct fuel' as [|fuel']; [simpl in H'; lia|].
    cbn [utf8.Valid_loop length] in *.
    destruct (utf8.validStep (c :: p)) as [size|] eqn:E; [|reflexivity].
    apply validStep_bounds in E.
    apply IH; rewrite length_skipn; cbn [length]; lia.
Qed.

Lemma Valid_step (p : bytes) (size : nat) :
  p <> [] -> utf8.validStep p = Some size ->
  utf8.Valid p = utf8.Valid (skipn size p).
Proof.
  intros Hne H. destruct p as [|c p]; [congruence|].
  unfold utf8.Valid at 1. cbn [length utf8.Valid_loop]. rewrite H.
  apply validStep_bounds in H.
  apply Valid_loop_fuel; rewrite ?length_skipn; cbn [length]; lia.
Qed.

Lemma Valid_cons_ascii (c : ascii) (t : bytes) :
  b2z c < 128 -> utf8.Valid (c :: t) = utf8.Valid t.
Proof.
  intros H. rewrite (Valid_step (c :: t) 1); [reflexivity | discriminate |].
  unfold utf8.validStep. cbv zeta.
  change (utf8.at_ (c :: t) 0) with (b2z c). change utf8.RuneSelf with 128.
  destruct (Z.ltb_spec (b2z c) 128); [reflexivity | lia].
Qed.

Lemma Valid_EncodeRune (r : Z) (t : bytes) :
  0 <= r < 2 ^ 32 -> utf8.Valid (utf8.EncodeRune r ++ t) = utf8.Valid t.
Proof.
  intros Hr. destruct (EncodeRune_valid r t Hr) as [Hne Hstep].
  rewrite (Valid_step _ _ (fun E => Hne (proj1 (app_eq_nil _ _ E))) Hstep).
  now rewrite skipn_app, skipn_all, Nat.sub_diag.
Qed.

Lemma hexval_range (c : ascii) : json.isHex c = true -> 0 <= json.hexval c < 16.
Proof.
  unfold json.isHex, json.hexval, json.isDigit. pose proof (b2z_range c).
  change (b2z "0") with 48. change (b2z "9") with 57.
  change (b2z "a") with 97. change (b2z "f") with 102.
  change (b2z "A") with 65. change (b2z "F") with 70.
  intros H1.
  repeat match goal with
         | |- context [?a <=? ?b] => destruct (Z.leb_spec a b)
         end; cbn [andb orb] in *; try discriminate; lia.
Qed.

Lemma getu4_range (s : bytes) : json.getu4 s < 65536.
Proof.
  unfold json.getu4.
  destruct s as [|c0 [|c1 [|h1 [|h2 [|h3 [|h4 s]]]]]]; try lia.
  destruct (_ && _) eqn:E; [|lia].
  repeat (apply andb_prop in E as [E ?]).
  repeat match goal with
         | H : json.isHex _ = true |- _ => apply hexval_range in H
         end. lia.
Qed.

Lemma utf16_DecodeRune_range (r1 r2 : Z) :
  0 <= utf16.DecodeRune r1 r2 < 2 ^ 32.
Proof.
  unfold utf16.DecodeRune, utf16.surr1, utf16.surr2, utf16.surr3,
    utf16.surrSelf, utf16.replacementChar.
  destruct (Z.leb_spec 55296 r1); [|cbn; lia].
  destruct (Z.ltb_spec r1 56320); [|cbn; lia].
  destruct (Z.leb_spec 56320 r2); [|cbn; lia].
  destruct (Z.ltb_spec r2 57344); [|cbn; lia].
  cbn [andb]. rewrite lor_shiftl_small; lia.
Qed.

Lemma eqb_ascii_small (e a : ascii) :
  Ascii.eqb e a = true -> b2z a < 128 -> b2z e < 128.
Proof. intros H. apply Ascii.eqb_eq in H. now subst. Qed.

(** Whatever the literal, its unquoted text is valid UTF-8. *)
Lemma unquote_loop_valid (fuel : nat) : forall s t,
  json.unquote_loop fuel s = Some t -> utf8.Valid t = true.
Proof.
  induction fuel as [|fuel IH]; intros s t H.
  - destruct s; [injection H as <-; reflexivity | discriminate H].
  - destruct s as [|c s]; [injection H as <-; reflexivity|].
    cbn [json.unquote_loop] in H.
    destruct (Ascii.eqb c "\").
    + destruct s as [|e s]; [discriminate H|].
      destruct (_ || _ || _ || _) eqn:E1.
      { destruct (json.unquote_loop fuel s) as [t'|] eqn:Et;
          [|discriminate H].
        injection H as <-. rewrite Valid_cons_ascii; [now apply IH in Et|].
        repeat (apply orb_prop in E1 as [E1|E1]);
          apply Ascii.eqb_eq in E1; subst e; vm_compute; reflexivity. }
      repeat match type of H with
             | (if Ascii.eqb e ?a then _ else _) = _ =>
               destruct (Ascii.eqb e a);
                 [destruct (json.unquote_loop fuel s) as [t'|] eqn:Et;
                  [|discriminate H];
                  injection H as <-;
                  rewrite Valid_cons_ascii by (vm_compute; reflexivity);
                  now apply IH in Et|]
             end.
      destruct (Ascii.eqb e "u"); [|discriminate H].
      destruct (Z.ltb_spec (json.getu4 (c :: e :: s)) 0) as [|Hpos];
        [discriminate H|].
      pose proof (getu4_range (c :: e :: s)) as Hu.
      match type of H with
      | (let (_, _) := ?x in _) = _ => destruct x as [rr' s2] eqn:Epair
      end.
      destruct (json.unquote_loop fuel s2) as [t'|] eqn:Et;
        [|discriminate H].
      injection H as <-. rewrite Valid_EncodeRune; [now apply IH in Et|].
      destruct (utf16.IsSurrogate _).
      * destruct (negb _); injection Epair as <- _;
          [apply utf16_DecodeRune_range | cbv; split; congruence].
      * injection Epair as <- _.
        change (0 <= json.getu4 (c :: e :: s) < 2 ^ 32). lia.
    + destruct (_ || _); [discriminate H|].
      destruct (Z.ltb_spec (b2z c) utf8.RuneSelf) as [Hlt|Hge].
      * destruct (json.unquote_loop fuel s) as [t'|] eqn:Et;
          [|discriminate H].
        injection H as <-. rewrite Valid_cons_ascii; [now apply IH in Et|].
        exact Hlt.
      * pose proof (DecodeRune_range (c :: s)) as Hr.
        destruct (utf8.DecodeRune (c :: s)) as [rr size]. cbn [fst] in Hr.
        destruct (json.unquote_loop fuel (skipn size (c :: s))) as [t'|] eqn:Et;
          [|discriminate H].
        injection H as <-. rewrite Valid_EncodeRune; [now apply IH in Et|].
        lia.
Qed.

Lemma unquote_valid (lit t : bytes) :
  json.unquote lit = Some t -> utf8.Valid t = true.
Proof. apply unquote_loop_valid. Qed.

Lemma set_validRecord (f : field) (v : TemplateInfo) (s : string) :
  In f fields -> validRecord v = true -> utf8.ValidString s = true ->
  validRecord (set f v s) = true.
Proof.
  unfold validRecord, fields. cbn [In forallb get].
  intros Hf Hv Hs. repeat (apply andb_prop in Hv as [? Hv]).
  destruct Hf as [<-|[<-|[<-|[<-|[<-|[<-|[<-|[]]]]]]]];
    cbn [set get TemplateName Platform Language Source Description
             Repository Official templateField platformField languageField
             sourceField descriptionField repoField officialField];
    repeat (apply andb_true_intro; split); assumption || reflexivity.
Qed.

Lemma storeString_validRecord (f : field) (item : json.Value)
      (v : TemplateInfo) (saved : option json.Error) :
  In f fields -> validRecord v = true ->
  validRecord (fst (storeString f item v saved)) = true.
Proof.
  intros Hf Hv. unfold storeString. destruct item; try exact Hv.
  destruct (json.unquote lit) as [s|] eqn:E; [|exact Hv].
  cbn [fst]. apply set_validRecord; [exact Hf | exact Hv |].
  unfold utf8.ValidString. rewrite bytes_of_string_of_bytes.
  now apply unquote_valid in E.
Qed.

Lemma object_validRecord (members : list (bytes * json.Value)) :
  forall v saved,
  validRecord v = true -> validRecord (fst (object members v saved)) = true.
Proof.
  induction members as [|[rawkey item] members IH]; intros v saved Hv;
    [exact Hv|].
  cbn [object]. destruct (findField (unquoted rawkey)) as [f|] eqn:Ef.
  - pose proof (storeString_validRecord f item v saved
                  (findField_In _ _ Ef) Hv) as H.
    destruct (storeString f item v saved) as [v' saved']. now apply IH.
  - now apply IH.
Qed.

Lemma array_validRecord (elems : list json.Value) : forall saved,
  forallb validRecord (fst (array elems saved)) = true.
Proof.
  induction elems as [|item elems IH]; intros saved; [reflexivity|].
  cbn [array].
  assert (validRecord (fst (element item saved)) = true) as Hv.
  { destruct item; try reflexivity. cbn [element].
    now apply object_validRecord. }
  destruct (element item saved) as [v saved1].
  specialize (IH saved1). destruct (array elems saved1) as [vs saved2].
  cbn [fst forallb] in *. now rewrite Hv, IH.
Qed.

(** Every record the decoder returns holds valid UTF-8 only. *)
Lemma Unmarshal_validRecord (data : bytes) :
  forallb validRecord (fst (Unmarshal data [])) = true.
Proof.
  unfold Unmarshal. destruct (json.parse data) as [item|]; [|reflexivity].
  destruct item; try reflexivity. apply array_validRecord.
Qed.

(** C9 as stated fails: a record with a field that is not valid UTF-8 is
    not reproduced, the decoder puts the replacement character in the
    place of the byte; no input at all decodes to such a record. *)
Lemma C9_counterexample :
  validRecord badRecord = false
  /\ Unmarshal (encode [badRecord]) [] <> ([badRecord], None)
  /\ forall data, Unmarshal data [] <> ([badRecord], None).
Proof.
  split; [reflexivity|]. split.
  - vm_compute. intros H. discriminate H.
  - intros data H. pose proof (Unmarshal_validRecord data) as Hv.
    rewrite H in Hv. discriminate Hv.
Qed.

(** C9, amended: for every finite sequence of records whose fields are
    valid UTF-8, encoding the sequence to the documented JSON shape and
    decoding the resulting bytes reproduces the sequence, in the same
    order and with the same field values. *)
Theorem C9_encode_decode_roundtrip (records : list TemplateInfo) :
  forallb validRecord records = true ->
  Unmarshal (encode records) [] = (records, None)
  /\ forall (jsonError : json.Error -> string) (w : World) (g : Flags)
            (repository : string),
      answers w repository (responseOf StatusOK (encode records)) ->
      getTemplateInfo jsonError w g repository = (records, None).
Proof.
  intros H. split; [now apply Unmarshal_encode|].
  intros jsonError w g repository Hw.
  rewrite (getTemplateInfo_decode jsonError w g repository _ Hw).
  now rewrite Unmarshal_encode.
Qed.

Lemma C9_encode_decode_roundtrip_witness :
  Unmarshal (encode sampleTemplates) [] = (sampleTemplates, None).
Proof.
  apply (C9_encode_decode_roundtrip sampleTemplates). reflexivity.
Defined.
